(** * zoom-agent/script.js: the background video refresh server

    A shallow embedding of [src/zoom-agent/script.js] and the properties of
    its specification.

    - JSON data is the inductive type [json]; a JavaScript value read from
      it is a [value], where [None] is [undefined].
    - An [async] function is a [prog]: a tree whose nodes are the places
      where the function waits for the outside world ([Fetch], [Sleep]) or
      touches the two module-level variables, and whose leaves are a
      returned value, a thrown exception, or [Spin] for a [while (true)]
      loop that is still running when its iteration budget is used up.
    - [run] executes one [prog] from start to end against a [world] that
      answers the requests; [turn] interleaves several of them the way the
      event loop does.

    Console output is not part of the model; the conversions to string that
    building a log line performs are, because they can throw. *)

From Stdlib Require Import List String Ascii ZArith QArith Bool Arith Lia.
Import ListNotations.
Local Open Scope string_scope.

Set Warnings "-register-all".

(** ** JSON data and the JavaScript operations the program applies to it *)

(** What [response.json()] produces.  A string is a sequence of code units
    below 256; a number is a finite double seen as a rational, or one of
    the two infinities that a numeral beyond the range of doubles such as
    1e400 is read as; the fields of an object are listed with distinct
    keys. *)
Inductive json : Type :=
| JNull
| JBool (b : bool)
| JNum (q : Q)
| JInfinity (negative : bool)
| JStr (s : string)
| JArr (items : list json)
| JObj (fields : list (string * json)).

(** A JavaScript value of the program: [None] is [undefined]. *)
Definition value : Type := option json.

Definition undefined : value := None.
Definition null : value := Some JNull.

Inductive exn : Type :=
| FetchError    (* [fetch] rejected: no response was received *)
| SyntaxError   (* [response.json()] rejected: the body is not JSON *)
| TypeError.    (* a property of null or undefined, a call of a non-function,
                   a conversion of an object to a primitive that fails *)

Fixpoint assoc (k : string) (fields : list (string * json)) : value :=
  match fields with
  | [] => None
  | (k', v) :: rest => if String.eqb k k' then Some v else assoc k rest
  end.

Definition is_digit (c : ascii) : bool :=
  let n := nat_of_ascii c in (48 <=? n)%nat && (n <=? 57)%nat.

Fixpoint digits_value (acc : nat) (s : string) : option nat :=
  match s with
  | EmptyString => Some acc
  | String c rest =>
      if is_digit c then digits_value (10 * acc + (nat_of_ascii c - 48)) rest
      else None
  end.

(** The array index a property name denotes: a decimal numeral without a
    superfluous leading zero. *)
Definition array_index (k : string) : option nat :=
  match k with
  | EmptyString => None
  | String "0" EmptyString => Some 0%nat
  | String "0" _ => None
  | _ => digits_value 0 k
  end.

Definition number_of_nat (n : nat) : json := JNum (inject_Z (Z.of_nat n)).

(** [v.k] and [v[k]] for an object value [v] other than null and for the
    property names the program uses, none of which is inherited from a
    prototype: own fields of an object, [length] and the elements of an
    array, [length] and the characters of a string. *)
Definition get_property (v : json) (k : string) : value :=
  match v with
  | JObj fields => assoc k fields
  | JArr items =>
      if String.eqb k "length" then Some (number_of_nat (List.length items))
      else match array_index k with
           | Some i => nth_error items i
           | None => None
           end
  | JStr s =>
      if String.eqb k "length" then Some (number_of_nat (String.length s))
      else match array_index k with
           | Some i => match String.get i s with
                       | Some c => Some (JStr (String c EmptyString))
                       | None => None
                       end
           | None => None
           end
  | JNull | JBool _ | JNum _ | JInfinity _ => None
  end.

(** Truthiness, as [&&] and [if] test it. *)
Definition truthy (v : value) : bool :=
  match v with
  | None | Some JNull => false
  | Some (JBool b) => b
  | Some (JNum q) => negb (Qeq_bool q 0)
  | Some (JInfinity _) => true
  | Some (JStr s) => negb (String.eqb s "")
  | Some (JArr _) | Some (JObj _) => true
  end.

(** [v === s] for a string literal [s]. *)
Definition strict_eq_string (v : value) (s : string) : bool :=
  match v with
  | Some (JStr s') => String.eqb s' s
  | _ => false
  end.

Definition has_key (k : string) (fields : list (string * json)) : bool :=
  match assoc k fields with Some _ => true | None => false end.

(** Whether converting [v] to a primitive throws.  A parsed object inherits
    [toString] and [valueOf] unless it has a field of that name; a field
    [toString] hides the inherited method with something that cannot be
    called, the inherited [valueOf] answers the object itself, and the
    conversion is left without a primitive.  An array is joined, which
    converts every element except null. *)
Fixpoint to_primitive_throws (v : json) : bool :=
  match v with
  | JObj fields => has_key "toString" fields
  | JArr items => existsb to_primitive_throws items
  | JNull | JBool _ | JNum _ | JInfinity _ | JStr _ => false
  end.

(** The value that [JSON.stringify] writes for [v], read back: an infinite
    number is written as null, at any depth. *)
Fixpoint serialise (v : json) : json :=
  match v with
  | JInfinity _ => JNull
  | JArr items => JArr (map serialise items)
  | JObj fields => JObj (map (fun kv => (fst kv, serialise (snd kv))) fields)
  | JNull | JBool _ | JNum _ | JStr _ => v
  end.

Definition is_space (c : ascii) : bool :=
  let n := nat_of_ascii c in
  ((9 <=? n)%nat && (n <=? 13)%nat) || (n =? 32)%nat || (n =? 160)%nat.

Fixpoint trim_start (s : string) : string :=
  match s with
  | EmptyString => EmptyString
  | String c rest => if is_space c then trim_start rest else s
  end.

Fixpoint trim_end (s : string) : string :=
  match s with
  | EmptyString => EmptyString
  | String c rest =>
      match trim_end rest with
      | EmptyString => if is_space c then EmptyString else String c EmptyString
      | rest' => String c rest'
      end
  end.

(** [String.prototype.trim]: white space and line terminators removed from
    both ends (the ones below 256: U+0009 to U+000D, U+0020 and U+00A0). *)
Definition trim (s : string) : string := trim_end (trim_start s).

(** ** Asynchronous functions *)

(** The two kinds of request the program sends.  The headers carry the API
    keys of the environment and are left out; the body is the payload that
    [JSON.stringify] serialises; the URL of a status request is kept as the
    generation id that is spliced into it. *)
Inductive request : Type :=
| POST (url : string) (payload : json)
| GET_generation (generationId : value).

(** How [await fetch(...)] followed by [await response.json()] ends. *)
Inductive response : Type :=
| NetworkError
| InvalidBody
| Body (data : json).

(** The current background video, [{ id, video_url }]. *)
Record video : Type := { id : value; video_url : value }.

(** An asynchronous function that yields an [A]: what it does next.
    [Fetch] and [Sleep] are the places where it waits and other tasks can
    run; reading and assigning the two variables takes no time. *)
Inductive prog (A : Type) : Type :=
| Ret (a : A)
| Throw (e : exn)
| Spin
| Fetch (req : request) (k : response -> prog A)
| Sleep (ms : Z) (k : prog A)
| GetVideo (k : video -> prog A)
| SetVideo (v : video) (k : prog A)
| GetPrompt (k : string -> prog A)
| SetPrompt (p : string) (k : prog A).

Arguments Ret {A} a.
Arguments Throw {A} e.
Arguments Spin {A}.
Arguments Fetch {A} req k.
Arguments Sleep {A} ms k.
Arguments GetVideo {A} k.
Arguments SetVideo {A} v k.
Arguments GetPrompt {A} k.
Arguments SetPrompt {A} p k.

Fixpoint bind {A B : Type} (p : prog A) (f : A -> prog B) : prog B :=
  match p with
  | Ret a => f a
  | Throw e => Throw e
  | Spin => Spin
  | Fetch req k => Fetch req (fun r => bind (k r) f)
  | Sleep ms k => Sleep ms (bind k f)
  | GetVideo k => GetVideo (fun v => bind (k v) f)
  | SetVideo v k => SetVideo v (bind k f)
  | GetPrompt k => GetPrompt (fun p => bind (k p) f)
  | SetPrompt p k => SetPrompt p (bind k f)
  end.

(** [try { p } catch (error) { handler error }] *)
Fixpoint try_catch {A : Type} (p : prog A) (handler : exn -> prog A) : prog A :=
  match p with
  | Ret a => Ret a
  | Throw e => handler e
  | Spin => Spin
  | Fetch req k => Fetch req (fun r => try_catch (k r) handler)
  | Sleep ms k => Sleep ms (try_catch k handler)
  | GetVideo k => GetVideo (fun v => try_catch (k v) handler)
  | SetVideo v k => SetVideo v (try_catch k handler)
  | GetPrompt k => GetPrompt (fun p => try_catch (k p) handler)
  | SetPrompt p k => SetPrompt p (try_catch k handler)
  end.

Declare Scope prog_scope.
Delimit Scope prog_scope with prog.
Notation "x <- p ;; q" := (bind p (fun x => q))
  (at level 61, p at next level, right associativity) : prog_scope.
Notation "p ;; q" := (bind p (fun _ => q))
  (at level 61, right associativity) : prog_scope.
Local Open Scope prog_scope.

(** [await fetch(...)] then [await response.json()]. *)
Definition fetch_json (req : request) : prog json :=
  Fetch req (fun r =>
    match r with
    | NetworkError => Throw FetchError
    | InvalidBody => Throw SyntaxError
    | Body data => Ret data
    end).

(** [v.k] where [v] may be null or undefined. *)
Definition member (v : value) (k : string) : prog value :=
  match v with
  | None | Some JNull => Throw TypeError
  | Some j => Ret (get_property j k)
  end.

(** [`${v}`]: only whether the conversion throws matters here. *)
Definition in_template (v : value) : prog unit :=
  match v with
  | Some j => if to_primitive_throws j then Throw TypeError else Ret tt
  | None => Ret tt
  end.

(** [v.trim()] *)
Definition call_trim (v : value) : prog string :=
  match v with
  | Some (JStr s) => Ret (trim s)
  | _ => Throw TypeError
  end.

(** ** Running one asynchronous function to its end *)

Inductive event : Type :=
| Fetched (req : request) (r : response)
| Slept (ms : Z).

(** The module-level variables [currentVideo] and [currentPrompt], the
    number of requests sent so far and everything that happened, oldest
    first. *)
Record state : Type := {
  currentVideo : video;
  currentPrompt : string;
  calls : nat;
  log : list event
}.

(** The remote services: the answer to the [n]-th request of the run. *)
Definition world : Type := nat -> request -> response.

Inductive outcome (A : Type) : Type :=
| Returned (a : A)
| Raised (e : exn)
| Running.

Arguments Returned {A} a.
Arguments Raised {A} e.
Arguments Running {A}.

Definition record_fetch (req : request) (r : response) (s : state) : state :=
  {| currentVideo := currentVideo s; currentPrompt := currentPrompt s;
     calls := S (calls s); log := log s ++ [Fetched req r] |}.

Definition record_sleep (ms : Z) (s : state) : state :=
  {| currentVideo := currentVideo s; currentPrompt := currentPrompt s;
     calls := calls s; log := log s ++ [Slept ms] |}.

Definition set_video (v : video) (s : state) : state :=
  {| currentVideo := v; currentPrompt := currentPrompt s;
     calls := calls s; log := log s |}.

Definition set_prompt (p : string) (s : state) : state :=
  {| currentVideo := currentVideo s; currentPrompt := p;
     calls := calls s; log := log s |}.

Fixpoint run {A : Type} (p : prog A) (w : world) (s : state) : outcome A * state :=
  match p with
  | Ret a => (Returned a, s)
  | Throw e => (Raised e, s)
  | Spin => (Running, s)
  | Fetch req k => let r := w (calls s) req in run (k r) w (record_fetch req r s)
  | Sleep ms k => run k w (record_sleep ms s)
  | GetVideo k => run (k (currentVideo s)) w s
  | SetVideo v k => run k w (set_video v s)
  | GetPrompt k => run (k (currentPrompt s)) w s
  | SetPrompt p k => run k w (set_prompt p s)
  end.

(** ** Helper functions of the script *)

Definition openai_completions : string := "https://api.openai.com/v1/completions".
Definition luma_generations : string :=
  "https://api.lumalabs.ai/dream-machine/v1/generations".
Definition starting_image : string :=
  "https://storage.cdn-luma.com/dream_machine/7e4fe07f-1dfd-4921-bc97-4bcf5adea39a/video_0_thumb.jpg".

(** An object literal as [JSON.stringify] writes it: a property whose value
    is undefined is left out, the others are serialised. *)
Fixpoint object (props : list (string * value)) : list (string * json) :=
  match props with
  | [] => []
  | (k, Some v) :: rest => (k, serialise v) :: object rest
  | (_, None) :: rest => object rest
  end.

Definition completion_payload (basePrompt : string) : json :=
  JObj [("model", JStr "text-davinci-003");
        ("prompt", JStr (basePrompt ++ " with slight variation"));
        ("max_tokens", JNum 20);
        ("temperature", JNum (7 # 10))].

Definition generation_payload (prompt : string) : json :=
  JObj [("prompt", JStr prompt);
        ("model", JStr "ray-2");
        ("keyframes",
          JObj [("frame0", JObj [("type", JStr "image");
                                 ("url", JStr starting_image)])])].

Definition interpolation_payload (videoId1 videoId2 : value) (prompt : string) : json :=
  JObj [("prompt", JStr prompt);
        ("keyframes",
          JObj [("frame0", JObj (object [("type", Some (JStr "generation"));
                                         ("id", videoId1)]));
                ("frame1", JObj (object [("type", Some (JStr "generation"));
                                         ("id", videoId2)]))])].

(** [generateVideo(prompt)], lines 50-80. *)
Definition generateVideo (prompt : string) : prog json :=
  try_catch
    (data <- fetch_json (POST luma_generations (generation_payload prompt)) ;;
     Ret data)
    (fun error => Throw error).

(** [getGeneration(generationId)], lines 85-100.  The id is spliced into
    the URL inside the [try] block. *)
Definition getGeneration (generationId : value) : prog json :=
  try_catch
    (in_template generationId ;;
     data <- fetch_json (GET_generation generationId) ;;
     Ret data)
    (fun error => Throw error).

(** [pollGeneration(generationId, interval)], lines 106-117: [while (true)]
    unfolded [fuel] times.  Each iteration fetches the generation, builds
    the log line from the id and the status, and leaves the loop on the
    status "completed" or sleeps for [interval] milliseconds. *)
Fixpoint pollGeneration (fuel : nat) (generationId : value) (interval : Z) : prog json :=
  match fuel with
  | O => Spin
  | S fuel' =>
      generation <- getGeneration generationId ;;
      in_template generationId ;;
      status <- member (Some generation) "status" ;;
      in_template status ;;
      if strict_eq_string status "completed" then Ret generation
      else Sleep interval (pollGeneration fuel' generationId interval)
  end.

Definition default_interval : Z := 5000.

(** [interpolateVideos(videoId1, videoId2, prompt)], lines 123-154. *)
Definition interpolateVideos (videoId1 videoId2 : value) (prompt : string) : prog json :=
  try_catch
    (data <- fetch_json
               (POST luma_generations (interpolation_payload videoId1 videoId2 prompt)) ;;
     Ret data)
    (fun error => Throw error).

Definition interpolation_prompt : string :=
  "Interpolate between current background and new variation".

(** Lines 161 and 163. *)
Definition initial_video : video := {| id := null; video_url := null |}.
Definition initial_prompt : string := "A peaceful dynamic nature background".

Definition initial_state : state :=
  {| currentVideo := initial_video; currentPrompt := initial_prompt;
     calls := 0; log := [] |}.

(** The answer of [GET /api/current-video]. *)
Record http_response : Type := { status : Z; content : json }.

(** [res.json({ video_url: url })]: the body is what [JSON.stringify]
    writes. *)
Definition video_ready (url : json) : http_response :=
  {| status := 200; content := JObj [("video_url", serialise url)] |}.

Definition not_ready : http_response :=
  {| status := 503; content := JObj [("error", JStr "Video not ready yet")] |}.

(** The handler of [/api/current-video], lines 226-232. *)
Definition current_video (v : video) : http_response :=
  match video_url v with
  | Some url => if truthy (Some url) then video_ready url else not_ready
  | None => not_ready
  end.

Definition current (s : state) : http_response := current_video (currentVideo s).

Section Engine.

(** [v > 0] for a string [v], or an array [v] whose conversion to a
    primitive succeeds: the engine reads the string (for an array, its
    elements joined by commas) as a numeric literal.  Only an object with a
    field [length] in the place of the [choices] array reaches it. *)
Variable loose_gt_zero : json -> bool.

(** [v > 0] *)
Definition gt_zero (v : value) : prog bool :=
  match v with
  | None | Some JNull => Ret false
  | Some (JBool b) => Ret b
  | Some (JNum q) => Ret (negb (Qle_bool q 0))
  | Some (JInfinity negative) => Ret (negb negative)
  | Some (JObj fields) =>
      if to_primitive_throws (JObj fields) then Throw TypeError else Ret false
  | Some j => if to_primitive_throws j then Throw TypeError else Ret (loose_gt_zero j)
  end.

(** [generatePromptForLuma(basePrompt)], lines 20-44. *)
Definition generatePromptForLuma (basePrompt : string) : prog string :=
  try_catch
    (data <- fetch_json (POST openai_completions (completion_payload basePrompt)) ;;
     choices <- member (Some data) "choices" ;;
     nonempty <- (if truthy choices
                  then len <- member choices "length" ;; gt_zero len
                  else Ret false) ;;
     if nonempty
     then first <- member choices "0" ;;
          text <- member first "text" ;;
          call_trim text
     else Ret basePrompt)
    (fun _ => Ret basePrompt).

(** The [try] block of [initializeBackground], lines 168-179. *)
Definition initializeBackground_try (fuel : nat) : prog unit :=
  basePrompt <- GetPrompt (fun p => Ret p) ;;
  prompt <- generatePromptForLuma basePrompt ;;
  SetPrompt prompt (Ret tt) ;;
  prompt <- GetPrompt (fun p => Ret p) ;;
  genResponse <- generateVideo prompt ;;
  genId <- member (Some genResponse) "id" ;;
  generation <- pollGeneration fuel genId default_interval ;;
  url <- member (Some generation) "video_url" ;;
  SetVideo {| id := genId; video_url := url |} (Ret tt).

(** [initializeBackground()], lines 166-183. *)
Definition initializeBackground (fuel : nat) : prog unit :=
  try_catch (initializeBackground_try fuel) (fun _ => Ret tt).

(** The [try] block of [updateBackground], lines 188-206.  The log line
    of line 196 reads [newGeneration.video_url]. *)
Definition updateBackground_try (fuel : nat) : prog unit :=
  basePrompt <- GetPrompt (fun p => Ret p) ;;
  newPrompt <- generatePromptForLuma basePrompt ;;
  newGenResponse <- generateVideo newPrompt ;;
  newGenId <- member (Some newGenResponse) "id" ;;
  newGeneration <- pollGeneration fuel newGenId default_interval ;;
  _ <- member (Some newGeneration) "video_url" ;;
  current <- GetVideo (fun v => Ret v) ;;
  interpResponse <- interpolateVideos (id current) newGenId interpolation_prompt ;;
  interpGenId <- member (Some interpResponse) "id" ;;
  interpolatedGeneration <- pollGeneration fuel interpGenId default_interval ;;
  url <- member (Some interpolatedGeneration) "video_url" ;;
  SetVideo {| id := interpGenId; video_url := url |} (Ret tt) ;;
  SetPrompt newPrompt (Ret tt).

(** [updateBackground()], lines 186-210. *)
Definition updateBackground (fuel : nat) : prog unit :=
  try_catch (updateBackground_try fuel) (fun _ => Ret tt).

(** ** The event loop *)

(** Which of the two background functions a task is an execution of. *)
Inductive job : Type := Initialize | RefreshCycle.

(** A task that has started and not finished: the rest of its function,
    stopped at the [await] it is waiting at. *)
Record task : Type := { kind : job; rest : prog unit }.

(** The process between two turns of the event loop: the module-level
    variables and the tasks in flight, oldest first. *)
Record server : Type := {
  video_now : video;
  prompt_now : string;
  inflight : list task
}.

(** What the event loop can be woken by.  The timer of [setInterval], the
    settling of a pending [fetch] and the end of a [setTimeout] arrive in
    the order the outside world decides. *)
Inductive input : Type :=
| Tick                             (* the 20000 ms interval fires *)
| Settle (i : nat) (r : response)  (* the request task [i] waits for ends *)
| Wake (i : nat)                   (* the sleep of task [i] is over *)
| Request.                         (* GET /api/current-video arrives *)

(** Runs a function up to its next [await]: the new values of the two
    variables, and the rest of the function unless it has finished. *)
Fixpoint advance (p : prog unit) (v : video) (pr : string)
  : video * string * option (prog unit) :=
  match p with
  | Ret _ | Throw _ => (v, pr, None)
  | Spin | Fetch _ _ | Sleep _ _ => (v, pr, Some p)
  | GetVideo k => advance (k v) v pr
  | SetVideo v' k => advance k v' pr
  | GetPrompt k => advance (k pr) v pr
  | SetPrompt pr' k => advance k v pr'
  end.

Fixpoint replace_task (i : nat) (t : option task) (l : list task) : list task :=
  match l, i with
  | [], _ => []
  | _ :: l', O => match t with Some t' => t' :: l' | None => l' end
  | x :: l', S i' => x :: replace_task i' t l'
  end.

(** Starts [p] as a new task (a call of an [async] function). *)
Definition spawn (j : job) (p : prog unit) (srv : server) : server :=
  match advance p (video_now srv) (prompt_now srv) with
  | (v, pr, Some p') =>
      {| video_now := v; prompt_now := pr;
         inflight := inflight srv ++ [{| kind := j; rest := p' |}] |}
  | (v, pr, None) =>
      {| video_now := v; prompt_now := pr; inflight := inflight srv |}
  end.

(** Continues task [i] with [p]. *)
Definition resume (i : nat) (j : job) (p : prog unit) (srv : server) : server :=
  match advance p (video_now srv) (prompt_now srv) with
  | (v, pr, p') =>
      {| video_now := v; prompt_now := pr;
         inflight :=
           replace_task i
             (match p' with Some q => Some {| kind := j; rest := q |} | None => None end)
             (inflight srv) |}
  end.

(** Lines 213 and 216: [initializeBackground()] is called and not awaited,
    then the interval is set. *)
Definition boot (fuel : nat) : server :=
  spawn Initialize (initializeBackground fuel)
    {| video_now := initial_video; prompt_now := initial_prompt; inflight := [] |}.

(** One turn of the event loop.  [setInterval(updateBackground, 20000)]
    calls [updateBackground] on every tick. *)
Definition turn (fuel : nat) (srv : server) (i : input) : server :=
  match i with
  | Tick => spawn RefreshCycle (updateBackground fuel) srv
  | Settle n r =>
      match nth_error (inflight srv) n with
      | Some {| kind := j; rest := Fetch _ k |} => resume n j (k r) srv
      | _ => srv
      end
  | Wake n =>
      match nth_error (inflight srv) n with
      | Some {| kind := j; rest := Sleep _ k |} => resume n j k srv
      | _ => srv
      end
  | Request => srv
  end.

(** The answer to [Request]. *)
Definition answer (srv : server) : http_response := current_video (video_now srv).

Definition turns (fuel : nat) (srv : server) (inputs : list input) : server :=
  fold_left (turn fuel) inputs srv.

Definition cycles_in_flight (srv : server) : nat :=
  List.length (filter (fun t => match kind t with RefreshCycle => true | Initialize => false end)
                      (inflight srv)).

Definition initialize_in_flight (srv : server) : bool :=
  existsb (fun t => match kind t with Initialize => true | RefreshCycle => false end)
          (inflight srv).

(** ** Notions the properties are stated with *)

(** The text of a well-formed completion: the string at
    [data.choices[0].text]. *)
Definition completion_text (data : json) : option string :=
  match get_property data "choices" with
  | Some choices =>
      match get_property choices "0" with
      | Some first =>
          match get_property first "text" with
          | Some (JStr text) => Some text
          | _ => None
          end
      | None => None
      end
  | None => None
  end.

Definition completion_request (basePrompt : string) : request :=
  POST openai_completions (completion_payload basePrompt).

(** [p] assigns neither module-level variable; with [or_prompt], it may
    assign [currentPrompt] but not [currentVideo]. *)
Fixpoint assigns_no_video (or_prompt : bool) {A : Type} (p : prog A) : Prop :=
  match p with
  | Ret _ | Throw _ | Spin => True
  | Fetch _ k => forall r, assigns_no_video or_prompt (k r)
  | Sleep _ k => assigns_no_video or_prompt k
  | GetVideo k => forall v, assigns_no_video or_prompt (k v)
  | SetVideo _ _ => False
  | GetPrompt k => forall p, assigns_no_video or_prompt (k p)
  | SetPrompt _ k => if or_prompt then assigns_no_video or_prompt k else False
  end.

Definition assigns_nothing {A : Type} (p : prog A) : Prop := assigns_no_video false p.

(** Unless [p] returns, it leaves [currentVideo] as it was. *)
Definition video_kept_unless_returned {A : Type} (p : prog A) : Prop :=
  forall w s,
    match run p w s with
    | (Returned _, _) => True
    | (_, s') => currentVideo s' = currentVideo s
    end.

(** Unless [p] returns, it leaves both variables as they were. *)
Definition variables_kept_unless_returned {A : Type} (p : prog A) : Prop :=
  forall w s,
    match run p w s with
    | (Returned _, _) => True
    | (_, s') => currentVideo s' = currentVideo s /\ currentPrompt s' = currentPrompt s
    end.

(** The status request of [getGeneration]. *)
Definition status_request (generationId : value) : request := GET_generation generationId.

(** [generation.status === "completed"] *)
Definition is_completed (generation : json) : bool :=
  strict_eq_string (get_property generation "status") "completed".

(** An id that can be spliced into the URL and the log line. *)
Definition printable (v : value) : bool :=
  match v with
  | Some j => negb (to_primitive_throws j)
  | None => true
  end.

(** A generation whose status the loop can read and print: an answer other
    than null whose [status] converts to a string. *)
Definition reports_status (generation : json) : bool :=
  match generation with
  | JNull => false
  | _ => printable (get_property generation "status")
  end.

Fixpoint count_fetches (l : list event) : nat :=
  match l with
  | [] => 0
  | Fetched _ _ :: l' => S (count_fetches l')
  | Slept _ :: l' => count_fetches l'
  end.

(** The durations of the sleeps of a log, in order. *)
Fixpoint sleeps (l : list event) : list Z :=
  match l with
  | [] => []
  | Fetched _ _ :: l' => sleeps l'
  | Slept ms :: l' => ms :: sleeps l'
  end.

(** The events of [pending] unsuccessful attempts followed by a successful
    one, the answers being [reports 0], [reports 1], ... *)
Fixpoint poll_events (generationId : value) (interval : Z) (reports : nat -> json)
         (first pending : nat) : list event :=
  match pending with
  | O => [Fetched (status_request generationId) (Body (reports first))]
  | S pending' =>
      Fetched (status_request generationId) (Body (reports first))
        :: Slept interval
        :: poll_events generationId interval reports (S first) pending'
  end.

(** The events of [rounds] unsuccessful attempts, each followed by its
    sleep. *)
Fixpoint pending_events (generationId : value) (interval : Z) (reports : nat -> json)
         (first rounds : nat) : list event :=
  match rounds with
  | O => []
  | S rounds' =>
      Fetched (status_request generationId) (Body (reports first))
        :: Slept interval
        :: pending_events generationId interval reports (S first) rounds'
  end.

(** The inputs that carry a task through [p] when it is alone in flight
    and the requests are answered by [w]; [s] is the state [p] starts in. *)
Fixpoint solo_inputs {A : Type} (p : prog A) (w : world) (s : state) : list input :=
  match p with
  | Ret _ | Throw _ | Spin => []
  | Fetch req k =>
      let r := w (calls s) req in
      Settle 0 r :: solo_inputs (k r) w (record_fetch req r s)
  | Sleep ms k => Wake 0 :: solo_inputs k w (record_sleep ms s)
  | GetVideo k => solo_inputs (k (currentVideo s)) w s
  | SetVideo v k => solo_inputs k w (set_video v s)
  | GetPrompt k => solo_inputs (k (currentPrompt s)) w s
  | SetPrompt p' k => solo_inputs k w (set_prompt p' s)
  end.

(** The process with the variables of [s] and nothing in flight. *)
Definition idle (s : state) : server :=
  {| video_now := currentVideo s; prompt_now := currentPrompt s; inflight := [] |}.

(** ** Remote services used in the scenarios *)

Definition job_record (job_id job_status : string) (url : string) : json :=
  JObj [("id", JStr job_id); ("status", JStr job_status); ("video_url", JStr url)].

Definition completion (text : string) : json :=
  JObj [("choices", JArr [JObj [("text", JStr text)]])].

(** Whether a payload for the video service asks for an interpolation: it
    has a second keyframe. *)
Definition second_keyframe (payload : json) : value :=
  match get_property payload "keyframes" with
  | Some keyframes => get_property keyframes "frame1"
  | None => None
  end.

(** The services of the end-to-end scenario.  The prompt service echoes
    the prompt it is sent.  The video service names the first generation
    "A", the next one "B" and the interpolation "C", and every job is
    completed at its first status request. *)
Definition scenario_world : world :=
  fun n req =>
    match req with
    | POST url payload =>
        if String.eqb url openai_completions then
          match get_property payload "prompt" with
          | Some (JStr sent) => Body (completion sent)
          | _ => InvalidBody
          end
        else
          match second_keyframe payload with
          | Some _ => Body (JObj [("id", JStr "C")])
          | None => if (n <? 3)%nat then Body (JObj [("id", JStr "A")])
                    else Body (JObj [("id", JStr "B")])
          end
    | GET_generation (Some (JStr "A")) => Body (job_record "A" "completed" "http://x/a.mp4")
    | GET_generation (Some (JStr "B")) => Body (job_record "B" "completed" "http://x/b.mp4")
    | GET_generation (Some (JStr "C")) => Body (job_record "C" "completed" "http://x/c.mp4")
    | GET_generation _ => NetworkError
    end.

(** The pairs of generation ids that the interpolation requests of a log
    name as their two keyframes. *)
Definition keyframe_id (payload : json) (frame : string) : value :=
  match get_property payload "keyframes" with
  | Some keyframes =>
      match get_property keyframes frame with
      | Some keyframe => get_property keyframe "id"
      | None => None
      end
  | None => None
  end.

Fixpoint interpolations (l : list event) : list (value * value) :=
  match l with
  | [] => []
  | Fetched (POST _ payload) _ :: l' =>
      match second_keyframe payload with
      | Some _ => (keyframe_id payload "frame0", keyframe_id payload "frame1")
                    :: interpolations l'
      | None => interpolations l'
      end
  | _ :: l' => interpolations l'
  end.

(** A prompt service that answers with [text] and a video service that
    cannot be reached. *)
Definition video_service_down (text : string) : world :=
  fun _ req =>
    match req with
    | POST url _ =>
        if String.eqb url openai_completions then Body (completion text) else NetworkError
    | GET_generation _ => NetworkError
    end.

Definition interpolation_request (videoId1 videoId2 : value) (prompt : string) : request :=
  POST luma_generations (interpolation_payload videoId1 videoId2 prompt).

(** A video service that answers every request with an empty object. *)
Definition empty_answers : world := fun _ _ => Body (JObj []).

(** A service that cannot be reached at all. *)
Definition unreachable : world := fun _ _ => NetworkError.

(** A job that is processing at its first two status requests and
    completed at the third. *)
Definition slow_job_reports (k : nat) : json :=
  match k with
  | 0%nat | 1%nat => job_record "A" "processing" ""
  | _ => job_record "A" "completed" "http://x/a.mp4"
  end.

Definition slow_job : world := fun n _ => Body (slow_job_reports n).

(** A job that has failed for good. *)
Definition failed_job_reports (k : nat) : json := job_record "A" "failed" "".

Definition failed_job : world := fun n _ => Body (failed_job_reports n).

(** A comparison for the runs in which no string or array is compared
    with zero: there any function serves as [loose_gt_zero]. *)
Definition no_comparison : json -> bool := fun _ => false.

(** ** The two claims that the code does not meet, as they are made *)

(** C6 on a response without an id: [generateVideo] throws. *)
Definition generateVideo_rejects_missing_id : Prop :=
  forall (prompt : string) (w : world) (s : state) (data : json),
    w (calls s) (POST luma_generations (generation_payload prompt)) = Body data ->
    get_property data "id" = None ->
    exists e, fst (run (generateVideo prompt) w s) = Raised e.

(** C8 on the event loop: whatever arrives, at most one background task is
    in flight, and a tick that finds one is dropped. *)
Definition one_task_at_a_time (fuel : nat) : Prop :=
  forall inputs, (List.length (inflight (turns fuel (boot fuel) inputs)) <= 1)%nat.

Definition busy_tick_is_dropped (fuel : nat) : Prop :=
  forall srv, inflight srv <> [] -> turn fuel srv Tick = srv.

(** [initializeBackground] has created job "A" and sleeps in its poll when
    the interval fires; the cycle this starts waits for its prompt when
    the interval fires again. *)
Definition slow_start : list input :=
  [ Settle 0 (Body (completion "Misty forest at dawn"));
    Settle 0 (Body (JObj [("id", JStr "A")]));
    Settle 0 (Body (job_record "A" "processing" ""));
    Tick;
    Tick ].

(** ** Notions for the further properties *)

(** The exception an answer to a status request ends the polling loop
    with, if it does: the one of [fetch] or of [response.json()], or the
    [TypeError] of reading or printing the status of an answer that
    reports none. *)
Definition answer_error (r : response) : option exn :=
  match r with
  | NetworkError => Some FetchError
  | InvalidBody => Some SyntaxError
  | Body generation => if reports_status generation then None else Some TypeError
  end.

(** [p] runs to its end without waiting. *)
Fixpoint no_wait {A : Type} (p : prog A) : Prop :=
  match p with
  | Ret _ | Throw _ => True
  | Spin | Fetch _ _ | Sleep _ _ => False
  | GetVideo k => forall v, no_wait (k v)
  | SetVideo _ k => no_wait k
  | GetPrompt k => forall p, no_wait (k p)
  | SetPrompt _ k => no_wait k
  end.

(** Once [p] has assigned [currentVideo] it runs to its end without
    waiting. *)
Fixpoint video_at_end {A : Type} (p : prog A) : Prop :=
  match p with
  | Ret _ | Throw _ | Spin => True
  | Fetch _ k => forall r, video_at_end (k r)
  | Sleep _ k => video_at_end k
  | GetVideo k => forall v, video_at_end (k v)
  | SetVideo _ k => no_wait k
  | GetPrompt k => forall p, video_at_end (k p)
  | SetPrompt _ k => video_at_end k
  end.

(** Every task in flight is one that assigns [currentVideo] only on its
    way out. *)
Definition tasks_commit_at_end (srv : server) : Prop :=
  Forall (fun t => video_at_end (rest t)) (inflight srv).

(** Every sleep of [p] lasts [interval] milliseconds. *)
Fixpoint sleeps_for (interval : Z) {A : Type} (p : prog A) : Prop :=
  match p with
  | Ret _ | Throw _ | Spin => True
  | Fetch _ k => forall r, sleeps_for interval (k r)
  | Sleep ms k => ms = interval /\ sleeps_for interval k
  | GetVideo k => forall v, sleeps_for interval (k v)
  | SetVideo _ k => sleeps_for interval k
  | GetPrompt k => forall p, sleeps_for interval (k p)
  | SetPrompt _ k => sleeps_for interval k
  end.

(** [p] does not sleep. *)
Fixpoint sleepless {A : Type} (p : prog A) : Prop :=
  match p with
  | Ret _ | Throw _ | Spin => True
  | Fetch _ k => forall r, sleepless (k r)
  | Sleep _ _ => False
  | GetVideo k => forall v, sleepless (k v)
  | SetVideo _ k => sleepless k
  | GetPrompt k => forall p, sleepless (k p)
  | SetPrompt _ k => sleepless k
  end.

(** A job that is processing at the first status request; after that the
    service cannot be reached. *)
Definition dropping_job : world :=
  fun n _ =>
    match n with
    | 0%nat => Body (job_record "A" "processing" "")
    | _ => NetworkError
    end.

(** ** The video an interpolation starts from *)

(** A request for an interpolation: one to the video service with a second
    keyframe. *)
Definition is_interpolation (req : request) : bool :=
  match req with
  | POST _ payload =>
      match second_keyframe payload with Some _ => true | None => false end
  | GET_generation _ => false
  end.

(** The generation id in the first keyframe of a request. *)
Definition first_keyframe_id (req : request) : value :=
  match req with
  | POST _ payload => keyframe_id payload "frame0"
  | GET_generation _ => None
  end.

(** The id [v] as [JSON.stringify] writes it into a payload. *)
Definition sent_id (v : value) : value := option_map serialise v.

(** Every interpolation that [p] asks for starts from the [currentVideo.id]
    of that moment: the request follows, without a wait in between, a read
    or an assignment of [currentVideo], and carries the id of that video.
    [seen] is the video read or assigned since the last wait, if any. *)
Fixpoint interpolates_from (seen : option video) {A : Type} (p : prog A) : Prop :=
  match p with
  | Ret _ | Throw _ | Spin => True
  | Fetch req k =>
      (is_interpolation req = true ->
       exists v, seen = Some v /\ first_keyframe_id req = sent_id (id v))
      /\ forall r, interpolates_from None (k r)
  | Sleep _ k => interpolates_from None k
  | GetVideo k => forall v, interpolates_from (Some v) (k v)
  | SetVideo v k => interpolates_from (Some v) k
  | GetPrompt k => forall pr, interpolates_from seen (k pr)
  | SetPrompt _ k => interpolates_from seen k
  end.

(** [p] asks for no interpolation. *)
Fixpoint never_interpolates {A : Type} (p : prog A) : Prop :=
  match p with
  | Ret _ | Throw _ | Spin => True
  | Fetch req k => is_interpolation req = false /\ forall r, never_interpolates (k r)
  | Sleep _ k => never_interpolates k
  | GetVideo k => forall v, never_interpolates (k v)
  | SetVideo _ k => never_interpolates k
  | GetPrompt k => forall pr, never_interpolates (k pr)
  | SetPrompt _ k => never_interpolates k
  end.

(** What a waiting task will do next keeps to [interpolates_from]. *)
Definition resumes_well (p : prog unit) : Prop :=
  match p with
  | Fetch _ k => forall r, interpolates_from None (k r)
  | Sleep _ k => interpolates_from None k
  | _ => True
  end.

Definition tasks_resume_well (srv : server) : Prop :=
  Forall (fun t => resumes_well (rest t)) (inflight srv).

(** If [q] waits for an interpolation, the first keyframe of the request
    is the id of [v]. *)
Definition asks_with_current_id (v : video) (q : prog unit) : Prop :=
  forall req k, q = Fetch req k -> is_interpolation req = true ->
                first_keyframe_id req = sent_id (id v).

(** Events of the polling of [generationId]: status requests for it and
    sleeps. *)
Definition status_traffic (generationId : value) (events : list event) : Prop :=
  Forall (fun e => match e with
                   | Fetched req _ => req = status_request generationId
                   | Slept _ => True
                   end) events.

(** A list of inputs without a tick of the timer. *)
Definition no_tick (inputs : list input) : Prop :=
  Forall (fun i => i <> Tick) inputs.

(** C10 on the event loop, for a refresh cycle that is the only one: if
    the timer starts it while [currentVideo.id] is null, the interpolation
    request it comes to send has null as its first keyframe. *)
Definition unset_start_interpolates_from_null (fuel : nat) : Prop :=
  forall (before after : list input),
    no_tick before -> no_tick after ->
    id (video_now (turns fuel (boot fuel) before)) = null ->
    forall (t : task) (url : string) (payload : json) (k : response -> prog unit),
      In t (inflight (turns fuel (turn fuel (turns fuel (boot fuel) before) Tick) after)) ->
      kind t = RefreshCycle ->
      rest t = Fetch (POST url payload) k ->
      second_keyframe payload <> None ->
      keyframe_id payload "frame0" = null.

(** [initializeBackground] gets its prompt and creates job "A"; it then
    waits for the status of "A". *)
Definition start_creates_job : list input :=
  [ Settle 0 (Body (completion "Misty forest at dawn"));
    Settle 0 (Body (JObj [("id", JStr "A")])) ].

(** After the timer has fired: [initializeBackground] sees job "A"
    completed and commits it; the refresh cycle then gets its prompt,
    creates job "B" and sees it completed. *)
Definition start_overtakes_cycle : list input :=
  [ Settle 0 (Body (job_record "A" "completed" "http://x/a.mp4"));
    Settle 0 (Body (completion "Misty forest at dusk"));
    Settle 0 (Body (JObj [("id", JStr "B")]));
    Settle 0 (Body (job_record "B" "completed" "http://x/b.mp4")) ].

(** ** How [run] goes through [bind] and [try_catch] *)

Lemma run_bind (A B : Type) (p : prog A) (f : A -> prog B) (w : world) (s : state) :
  run (bind p f) w s =
  match run p w s with
  | (Returned a, s') => run (f a) w s'
  | (Raised e, s') => (Raised e, s')
  | (Running, s') => (Running, s')
  end.
Proof.
  revert s; induction p; intros s; simpl; auto.
Qed.

Lemma run_try_catch (A : Type) (p : prog A) (h : exn -> prog A) (w : world) (s : state) :
  run (try_catch p h) w s =
  match run p w s with
  | (Raised e, s') => run (h e) w s'
  | other => other
  end.
Proof.
  revert s; induction p; intros s; simpl; auto.
Qed.

(** ** Which functions assign the module-level variables *)

Lemma assigns_nothing_weaken (A : Type) (p : prog A) :
  assigns_nothing p -> assigns_no_video true p.
Proof.
  unfold assigns_nothing. induction p; simpl; auto. contradiction.
Qed.

Lemma assigns_no_video_bind (b : bool) (A B : Type) (p : prog A) (f : A -> prog B) :
  assigns_no_video b p -> (forall a, assigns_no_video b (f a)) ->
  assigns_no_video b (bind p f).
Proof.
  intros Hp Hf. induction p; simpl in *; auto.
  destruct b; auto.
Qed.

Lemma assigns_no_video_try_catch (b : bool) (A : Type) (p : prog A) (h : exn -> prog A) :
  assigns_no_video b p -> (forall e, assigns_no_video b (h e)) ->
  assigns_no_video b (try_catch p h).
Proof.
  intros Hp Hh. induction p; simpl in *; auto.
  destruct b; auto.
Qed.

Lemma run_keeps_video (b : bool) (A : Type) (p : prog A) (w : world) (s : state) :
  assigns_no_video b p -> currentVideo (snd (run p w s)) = currentVideo s.
Proof.
  revert s. induction p; intros s Hp; simpl in *; auto.
  - rewrite H; auto.
  - rewrite IHp; auto.
  - contradiction.
  - destruct b; [ | contradiction ]. rewrite IHp; auto.
Qed.

Lemma run_keeps_prompt (A : Type) (p : prog A) (w : world) (s : state) :
  assigns_nothing p -> currentPrompt (snd (run p w s)) = currentPrompt s.
Proof.
  unfold assigns_nothing. revert s. induction p; intros s Hp; simpl in *; auto.
  - rewrite H; auto.
  - rewrite IHp; auto.
  - contradiction.
  - contradiction.
Qed.

Lemma fetch_json_assigns_nothing (b : bool) (req : request) :
  assigns_no_video b (fetch_json req).
Proof. intros [ | | data]; exact I. Qed.

Lemma member_assigns_nothing (b : bool) (v : value) (k : string) :
  assigns_no_video b (member v k).
Proof. destruct v as [[ | | | | | | ] | ]; exact I. Qed.

Lemma in_template_assigns_nothing (b : bool) (v : value) :
  assigns_no_video b (in_template v).
Proof.
  destruct v as [j | ]; simpl; [ | exact I ].
  destruct (to_primitive_throws j); exact I.
Qed.

Lemma call_trim_assigns_nothing (b : bool) (v : value) :
  assigns_no_video b (call_trim v).
Proof. destruct v as [[ | | | | | | ] | ]; exact I. Qed.

Lemma gt_zero_assigns_nothing (b : bool) (v : value) :
  assigns_no_video b (gt_zero v).
Proof.
  destruct v as [[ | | | | | | ] | ]; simpl; try exact I;
    match goal with |- context [if ?c then _ else _] => destruct c end; exact I.
Qed.

Ltac frame :=
  repeat first
    [ exact I
    | apply assigns_no_video_bind
    | apply assigns_no_video_try_catch
    | apply fetch_json_assigns_nothing
    | apply member_assigns_nothing
    | apply in_template_assigns_nothing
    | apply call_trim_assigns_nothing
    | apply gt_zero_assigns_nothing
    | progress intros
    | match goal with
      | |- assigns_no_video _ (if ?c then _ else _) => destruct c
      end
    | progress simpl ].

Lemma generateVideo_assigns_nothing (b : bool) (prompt : string) :
  assigns_no_video b (generateVideo prompt).
Proof. unfold generateVideo. frame. Qed.

Lemma getGeneration_assigns_nothing (b : bool) (generationId : value) :
  assigns_no_video b (getGeneration generationId).
Proof. unfold getGeneration. frame. Qed.

Lemma interpolateVideos_assigns_nothing (b : bool) (id1 id2 : value) (prompt : string) :
  assigns_no_video b (interpolateVideos id1 id2 prompt).
Proof. unfold interpolateVideos. frame. Qed.

Lemma pollGeneration_assigns_nothing (b : bool) (fuel : nat) (generationId : value)
      (interval : Z) :
  assigns_no_video b (pollGeneration fuel generationId interval).
Proof.
  induction fuel as [ | fuel IH]; cbn [pollGeneration]; [ exact I | ].
  apply assigns_no_video_bind; [ apply getGeneration_assigns_nothing | intros generation ].
  apply assigns_no_video_bind; [ apply in_template_assigns_nothing | intros _ ].
  apply assigns_no_video_bind; [ apply member_assigns_nothing | intros status ].
  apply assigns_no_video_bind; [ apply in_template_assigns_nothing | intros _ ].
  destruct (strict_eq_string status "completed"); simpl; auto.
Qed.

Lemma generatePrompt_assigns_nothing (b : bool) (basePrompt : string) :
  assigns_no_video b (generatePromptForLuma basePrompt).
Proof. unfold generatePromptForLuma. frame. Qed.

(** ** Prompt generation *)

Ltac case_on_matches :=
  repeat first
    [ progress simpl
    | progress unfold call_trim, member, gt_zero, in_template
    | match goal with
      | |- context [match ?x with _ => _ end] => destruct x eqn:?
      end ].

Lemma generatePrompt_cases (basePrompt : string) (w : world) (s : state) :
  let r := w (calls s) (completion_request basePrompt) in
  exists prompt,
    run (generatePromptForLuma basePrompt) w s
      = (Returned prompt, record_fetch (completion_request basePrompt) r s)
    /\ (prompt = basePrompt
        \/ exists data text, r = Body data /\ completion_text data = Some text
                             /\ prompt = trim text).
Proof.
  intros r. unfold generatePromptForLuma, completion_request in *.
  simpl. fold r. destruct r as [ | | data]; simpl; eauto.
  unfold member at 1.
  destruct data as [ | b | q | neg | str | items | fields] eqn:Hdata; simpl; eauto.
  destruct (assoc "choices" fields) as [choices | ] eqn:Hchoices; simpl; eauto.
  destruct choices as [ | b | q | neg | str | items | cfields]; simpl; eauto.
  all: case_on_matches; eauto.
  all: try (eexists; split; [reflexivity | left; reflexivity]).
  all: eexists; (split; [reflexivity | ]).
  all: right; do 2 eexists; split; [ reflexivity | split; [ | reflexivity ] ].
  all: unfold completion_text; simpl; rewrite Hchoices; simpl.
  all: try match goal with
         | H : match ?x with _ => _ end = _ |- _ => destruct x; discriminate
         end.
  all: repeat match goal with H : _ = _ |- _ => rewrite H; simpl end; reflexivity.
Qed.

(** C3: [generatePromptForLuma] never throws.  Whatever the prompt service
    does, it returns a string after its one request; that string is
    [basePrompt] itself when no answer arrives, when the body is not JSON,
    when [choices] is missing or an empty array, and whenever the body has
    no string at [choices[0].text]. *)
Theorem generatePrompt_never_raises (basePrompt : string) (w : world) (s : state) :
  let r := w (calls s) (completion_request basePrompt) in
  exists prompt,
    run (generatePromptForLuma basePrompt) w s
      = (Returned prompt, record_fetch (completion_request basePrompt) r s)
    /\ (r = NetworkError -> prompt = basePrompt)
    /\ (r = InvalidBody -> prompt = basePrompt)
    /\ (forall data, r = Body data -> get_property data "choices" = None ->
                     prompt = basePrompt)
    /\ (forall data, r = Body data -> get_property data "choices" = Some (JArr []) ->
                     prompt = basePrompt)
    /\ (forall data, r = Body data -> completion_text data = None -> prompt = basePrompt).
Proof.
  intros r.
  destruct (generatePrompt_cases basePrompt w s) as (prompt & Hrun & Hcases).
  fold r in Hrun, Hcases. exists prompt. split; [ exact Hrun | ].
  assert (Hmalformed : forall data, r = Body data -> completion_text data = None ->
                                    prompt = basePrompt).
  { intros data Hr Hnone. destruct Hcases as [ | (data' & text & Hr' & Htext & _)]; auto.
    rewrite Hr in Hr'. injection Hr' as <-. congruence. }
  repeat split.
  - intros Hr. destruct Hcases as [ | (data & text & Hr' & _)]; congruence.
  - intros Hr. destruct Hcases as [ | (data & text & Hr' & _)]; congruence.
  - intros data Hr Hnone. apply (Hmalformed data Hr).
    unfold completion_text. rewrite Hnone. reflexivity.
  - intros data Hr Hempty. apply (Hmalformed data Hr).
    unfold completion_text. rewrite Hempty. reflexivity.
  - exact Hmalformed.
Qed.

(** ** The polling loop *)

Lemma is_completed_reports_status (generation : json) :
  is_completed generation = true -> reports_status generation = true.
Proof.
  unfold is_completed, reports_status, strict_eq_string.
  destruct generation; simpl; try discriminate;
    match goal with
    | |- context [match ?x with _ => _ end] => destruct x as [[ | | | | | | ] | ]
    end; simpl; auto; discriminate.
Qed.

Lemma run_getGeneration (generationId : value) (w : world) (s : state) (generation : json) :
  printable generationId = true ->
  w (calls s) (status_request generationId) = Body generation ->
  run (getGeneration generationId) w s
    = (Returned generation,
       record_fetch (status_request generationId) (Body generation) s).
Proof.
  intros Hid Hw. unfold getGeneration, in_template, status_request in *.
  destruct generationId as [j | ]; simpl in *.
  - destruct (to_primitive_throws j); [ discriminate | ]. simpl. rewrite Hw. reflexivity.
  - rewrite Hw. reflexivity.
Qed.

Lemma run_in_template (v : value) (w : world) (s : state) :
  printable v = true -> run (in_template v) w s = (Returned tt, s).
Proof.
  unfold printable, in_template. destruct v as [j | ]; [ | reflexivity ].
  destruct (to_primitive_throws j); [ discriminate | reflexivity ].
Qed.

Lemma run_member_status (generation : json) (w : world) (s : state) :
  reports_status generation = true ->
  run (member (Some generation) "status") w s
    = (Returned (get_property generation "status"), s).
Proof.
  destruct generation; simpl; reflexivity || discriminate.
Qed.

Lemma reports_status_printable (generation : json) :
  reports_status generation = true ->
  printable (get_property generation "status") = true.
Proof.
  destruct generation; simpl; auto.
Qed.

Lemma poll_iteration (fuel : nat) (generationId : value) (interval : Z)
      (w : world) (s : state) (generation : json) :
  printable generationId = true ->
  w (calls s) (status_request generationId) = Body generation ->
  reports_status generation = true ->
  run (pollGeneration (S fuel) generationId interval) w s
    = let s1 := record_fetch (status_request generationId) (Body generation) s in
      if is_completed generation then (Returned generation, s1)
      else run (pollGeneration fuel generationId interval) w (record_sleep interval s1).
Proof.
  intros Hid Hw Hst. cbn [pollGeneration].
  rewrite run_bind, (@run_getGeneration _ _ _ _ Hid Hw).
  rewrite run_bind, (@run_in_template _ _ _ Hid).
  rewrite run_bind, (@run_member_status _ _ _ Hst).
  rewrite run_bind, (@run_in_template _ _ _ (@reports_status_printable _ Hst)).
  unfold is_completed. cbv zeta.
  destruct (strict_eq_string (get_property generation "status") "completed"); reflexivity.
Qed.


Lemma poll_returns_at_first_completed (pending : nat) :
  forall (fuel : nat) (generationId : value) (interval : Z) (w : world) (s : state)
         (reports : nat -> json) (first : nat),
    printable generationId = true ->
    (forall k, (k <= pending)%nat ->
       w (calls s + k)%nat (status_request generationId) = Body (reports (first + k)%nat)) ->
    (forall k, (k < pending)%nat ->
       reports_status (reports (first + k)%nat) = true
       /\ is_completed (reports (first + k)%nat) = false) ->
    is_completed (reports (first + pending)%nat) = true ->
    (pending < fuel)%nat ->
    run (pollGeneration fuel generationId interval) w s
      = (Returned (reports (first + pending)%nat),
         {| currentVideo := currentVideo s; currentPrompt := currentPrompt s;
            calls := (calls s + S pending)%nat;
            log := log s ++ poll_events generationId interval reports first pending |}).
Proof.
  induction pending as [ | pending IH];
    intros fuel generationId interval w s reports first Hid Hw Hpend Hdone Hfuel;
    (destruct fuel as [ | fuel]; [ lia | ]).
  - rewrite Nat.add_0_r in *.
    rewrite (@poll_iteration fuel generationId interval w s (reports first) Hid).
    + cbv zeta. rewrite Hdone. unfold record_fetch. simpl.
      rewrite Nat.add_1_r. reflexivity.
    + specialize (Hw 0%nat (Nat.le_refl _)). rewrite !Nat.add_0_r in Hw. exact Hw.
    + apply is_completed_reports_status, Hdone.
  - destruct (Hpend 0%nat ltac:(lia)) as [Hst Hnot]. rewrite Nat.add_0_r in Hst, Hnot.
    rewrite (@poll_iteration fuel generationId interval w s (reports first) Hid); auto.
    + cbv zeta. rewrite Hnot.
      rewrite (IH fuel generationId interval w _ reports (S first) Hid).
      * simpl. rewrite <- !app_assoc. simpl.
        replace (first + S pending)%nat with (S (first + pending)) by lia.
        replace (S (calls s + S pending))%nat with (calls s + S (S pending))%nat by lia.
        reflexivity.
      * intros k Hk. simpl. specialize (Hw (S k) ltac:(lia)).
        replace (calls s + S k)%nat with (S (calls s + k)) in Hw by lia.
        replace (first + S k)%nat with (S (first + k)) in Hw by lia. exact Hw.
      * intros k Hk. specialize (Hpend (S k) ltac:(lia)).
        replace (first + S k)%nat with (S (first + k)) in Hpend by lia. exact Hpend.
      * replace (S first + pending)%nat with (first + S pending)%nat by lia. exact Hdone.
      * lia.
    + specialize (Hw 0%nat ltac:(lia)). rewrite !Nat.add_0_r in Hw. exact Hw.
Qed.

Lemma poll_still_running (fuel : nat) :
  forall (generationId : value) (interval : Z) (w : world) (s : state)
         (reports : nat -> json) (first : nat),
    printable generationId = true ->
    (forall k, (k < fuel)%nat ->
       w (calls s + k)%nat (status_request generationId) = Body (reports (first + k)%nat)) ->
    (forall k, (k < fuel)%nat ->
       reports_status (reports (first + k)%nat) = true
       /\ is_completed (reports (first + k)%nat) = false) ->
    run (pollGeneration fuel generationId interval) w s
      = (Running,
         {| currentVideo := currentVideo s; currentPrompt := currentPrompt s;
            calls := (calls s + fuel)%nat;
            log := log s ++ pending_events generationId interval reports first fuel |}).
Proof.
  induction fuel as [ | fuel IH]; intros generationId interval w s reports first Hid Hw Hpend.
  - simpl. rewrite Nat.add_0_r, app_nil_r. destruct s; reflexivity.
  - destruct (Hpend 0%nat ltac:(lia)) as [Hst Hnot]. rewrite Nat.add_0_r in Hst, Hnot.
    rewrite (@poll_iteration fuel generationId interval w s (reports first) Hid); auto.
    + cbv zeta. rewrite Hnot.
      rewrite (IH generationId interval w _ reports (S first) Hid).
      * simpl. rewrite <- !app_assoc. simpl.
        replace (S (calls s + fuel))%nat with (calls s + S fuel)%nat by lia.
        reflexivity.
      * intros k Hk. simpl. specialize (Hw (S k) ltac:(lia)).
        replace (calls s + S k)%nat with (S (calls s + k)) in Hw by lia.
        replace (first + S k)%nat with (S (first + k)) in Hw by lia. exact Hw.
      * intros k Hk. specialize (Hpend (S k) ltac:(lia)).
        replace (first + S k)%nat with (S (first + k)) in Hpend by lia. exact Hpend.
    + specialize (Hw 0%nat ltac:(lia)). rewrite !Nat.add_0_r in Hw. exact Hw.
Qed.

Lemma first_completed (reports : nat -> json) (bound : nat) :
  (forall k, (k < bound)%nat -> is_completed (reports k) = false)
  \/ exists n, (n < bound)%nat /\ is_completed (reports n) = true
               /\ forall k, (k < n)%nat -> is_completed (reports k) = false.
Proof.
  induction bound as [ | bound [Hnone | (n & Hn & Hdone & Hbefore)]].
  - left. intros k Hk. lia.
  - destruct (is_completed (reports bound)) eqn:Hb.
    + right. exists bound. auto.
    + left. intros k Hk. destruct (Nat.eq_dec k bound) as [-> | ]; auto.
      apply Hnone. lia.
  - right. exists n. auto.
Qed.

Lemma pending_events_counts (generationId : value) (interval : Z) (reports : nat -> json)
      (first rounds : nat) :
  count_fetches (pending_events generationId interval reports first rounds) = rounds
  /\ sleeps (pending_events generationId interval reports first rounds)
     = repeat interval rounds.
Proof.
  revert first. induction rounds as [ | rounds IH]; intros first; simpl; auto.
  destruct (IH (S first)) as [-> ->]. auto.
Qed.

(** The first status request is not answered: [pollGeneration] ends by the
    exception of [fetch], which is neither a return nor another attempt. *)
Lemma poll_passes_fetch_error_on (fuel : nat) (generationId : value) (interval : Z)
      (w : world) (s : state) :
  printable generationId = true ->
  w (calls s) (status_request generationId) = NetworkError ->
  fst (run (pollGeneration (S fuel) generationId interval) w s) = Raised FetchError.
Proof.
  intros Hid Hw. cbn [pollGeneration]. rewrite run_bind.
  unfold getGeneration. rewrite run_try_catch, run_bind, (run_in_template _ w s Hid).
  unfold status_request in Hw. simpl. rewrite Hw. reflexivity.
Qed.


(** C5: for a job whose every status request is answered with a generation
    that has a status, [pollGeneration] stops if and only if some answer
    has the status "completed", and then it returns the first such answer;
    when no answer is completed (a job that has failed, for one) the loop
    is still running after any number of attempts: every attempt is
    followed by another, there is no last one. *)
Theorem pollGeneration_returns_iff_completed
        (generationId : value) (interval : Z) (w : world) (s : state)
        (reports : nat -> json) :
  printable generationId = true ->
  (forall k, w (calls s + k)%nat (status_request generationId) = Body (reports k)) ->
  (forall k, reports_status (reports k) = true) ->
  ((exists fuel, fst (run (pollGeneration fuel generationId interval) w s) <> Running)
   <-> exists n, is_completed (reports n) = true)
  /\ (forall fuel,
        fst (run (pollGeneration fuel generationId interval) w s) <> Running ->
        exists n s',
          run (pollGeneration fuel generationId interval) w s = (Returned (reports n), s')
          /\ is_completed (reports n) = true
          /\ forall k, (k < n)%nat -> is_completed (reports k) = false)
  /\ ((forall n, is_completed (reports n) = false) ->
      forall fuel, exists s',
        run (pollGeneration fuel generationId interval) w s = (Running, s')
        /\ calls s' = (calls s + fuel)%nat
        /\ count_fetches (skipn (List.length (log s)) (log s')) = fuel).
Proof.
  intros Hid Hw Hst.
  assert (Hstop : forall fuel,
             fst (run (pollGeneration fuel generationId interval) w s) <> Running ->
             exists n s',
               run (pollGeneration fuel generationId interval) w s = (Returned (reports n), s')
               /\ is_completed (reports n) = true
               /\ forall k, (k < n)%nat -> is_completed (reports k) = false).
  { intros fuel Hout.
    destruct (first_completed reports fuel) as [Hnone | (n & Hn & Hdone & Hbefore)].
    - exfalso. apply Hout.
      rewrite (@poll_still_running fuel generationId interval w s reports 0%nat Hid); auto.
    - exists n. eexists. split; [ | auto ].
      pose proof (@poll_returns_at_first_completed n fuel generationId interval w s reports
                    0%nat Hid) as Hrun.
      cbn [Nat.add] in Hrun. apply Hrun; auto. }
  split; [ split | split ].
  - intros [fuel Hout]. destruct (Hstop fuel Hout) as (n & _ & _ & Hdone & _). eauto.
  - intros [n Hdone].
    destruct (first_completed reports (S n)) as [Hnone | (m & Hm & Hmdone & Hbefore)].
    + rewrite Hnone in Hdone by lia. discriminate.
    + exists (S m).
      pose proof (@poll_returns_at_first_completed m (S m) generationId interval w s reports
                    0%nat Hid) as Hrun.
      cbn [Nat.add] in Hrun. rewrite Hrun; auto. simpl. discriminate.
  - exact Hstop.
  - intros Hnever fuel. eexists.
    rewrite (@poll_still_running fuel generationId interval w s reports 0%nat Hid); auto.
    split; [ reflexivity | ]. simpl. split; [ reflexivity | ].
    rewrite skipn_app, skipn_all, Nat.sub_diag. simpl.
    apply pending_events_counts.
Qed.

(** ** The two background functions *)

Lemma variables_kept_bind (A B : Type) (p : prog A) (f : A -> prog B) :
  assigns_nothing p ->
  (forall a, variables_kept_unless_returned (f a)) ->
  variables_kept_unless_returned (bind p f).
Proof.
  intros Hp Hf w s. rewrite run_bind.
  pose proof (@run_keeps_video true A p w s (@assigns_nothing_weaken A p Hp)) as Hv.
  pose proof (@run_keeps_prompt A p w s Hp) as Hpr.
  destruct (run p w s) as [[a | e | ] s0]; simpl in Hv, Hpr; auto.
  specialize (Hf a w s0).
  destruct (run (f a) w s0) as [[b | e | ] s1]; auto; rewrite <- Hv, <- Hpr; exact Hf.
Qed.

Lemma video_kept_bind (A B : Type) (p : prog A) (f : A -> prog B) :
  assigns_no_video true p ->
  (forall a, video_kept_unless_returned (f a)) ->
  video_kept_unless_returned (bind p f).
Proof.
  intros Hp Hf w s. rewrite run_bind.
  pose proof (@run_keeps_video true A p w s Hp) as Hv.
  destruct (run p w s) as [[a | e | ] s0]; simpl in Hv; auto.
  specialize (Hf a w s0).
  destruct (run (f a) w s0) as [[b | e | ] s1]; auto; rewrite <- Hv; exact Hf.
Qed.

Lemma updateBackground_try_keeps_variables (fuel : nat) :
  variables_kept_unless_returned (updateBackground_try fuel).
Proof.
  unfold updateBackground_try.
  apply variables_kept_bind; [ intros p; exact I | intros basePrompt ].
  apply variables_kept_bind; [ apply generatePrompt_assigns_nothing | intros newPrompt ].
  apply variables_kept_bind; [ apply generateVideo_assigns_nothing | intros newGenResponse ].
  apply variables_kept_bind; [ apply member_assigns_nothing | intros newGenId ].
  apply variables_kept_bind; [ apply pollGeneration_assigns_nothing | intros newGeneration ].
  apply variables_kept_bind; [ apply member_assigns_nothing | intros _ ].
  apply variables_kept_bind; [ intros v; exact I | intros current ].
  apply variables_kept_bind; [ apply interpolateVideos_assigns_nothing | intros interpResponse ].
  apply variables_kept_bind; [ apply member_assigns_nothing | intros interpGenId ].
  apply variables_kept_bind; [ apply pollGeneration_assigns_nothing | intros interpolated ].
  apply variables_kept_bind; [ apply member_assigns_nothing | intros url ].
  intros w s. simpl. exact I.
Qed.

Lemma initializeBackground_try_keeps_video (fuel : nat) :
  video_kept_unless_returned (initializeBackground_try fuel).
Proof.
  unfold initializeBackground_try.
  apply video_kept_bind; [ intros p; exact I | intros basePrompt ].
  apply video_kept_bind; [ apply generatePrompt_assigns_nothing | intros prompt ].
  apply video_kept_bind; [ exact I | intros _ ].
  apply video_kept_bind; [ intros p; exact I | intros prompt' ].
  apply video_kept_bind; [ apply generateVideo_assigns_nothing | intros genResponse ].
  apply video_kept_bind; [ apply member_assigns_nothing | intros genId ].
  apply video_kept_bind; [ apply pollGeneration_assigns_nothing | intros generation ].
  apply video_kept_bind; [ apply member_assigns_nothing | intros url ].
  intros w s. simpl. exact I.
Qed.

Lemma run_log_extends (A : Type) (p : prog A) (w : world) (s : state) :
  exists events, log (snd (run p w s)) = (log s ++ events)%list.
Proof.
  revert s. induction p; intros s; simpl; try (exists []; rewrite app_nil_r; reflexivity); auto.
  - destruct (H (w (calls s) req) (record_fetch req (w (calls s) req) s)) as [events Hev].
    rewrite Hev. simpl. rewrite <- app_assoc. eauto.
  - destruct (IHp (record_sleep ms s)) as [events Hev].
    rewrite Hev. simpl. rewrite <- app_assoc. eauto.
  - apply (IHp (set_video v s)).
  - apply (IHp (set_prompt p s)).
Qed.

Lemma poll_returned_completed (fuel : nat) :
  forall (generationId : value) (interval : Z) (w : world) (s : state)
         (generation : json) (s' : state),
    run (pollGeneration fuel generationId interval) w s = (Returned generation, s') ->
    is_completed generation = true.
Proof.
  induction fuel as [ | fuel IH]; intros generationId interval w s generation s' Hrun.
  - discriminate Hrun.
  - cbn [pollGeneration] in Hrun. rewrite run_bind in Hrun.
    destruct (run (getGeneration generationId) w s) as [[g | e | ] s1]; try discriminate.
    rewrite run_bind in Hrun.
    destruct (run (in_template generationId) w s1) as [[[] | e | ] s2]; try discriminate.
    rewrite run_bind in Hrun.
    destruct (run (member (Some g) "status") w s2) as [[st | e | ] s3] eqn:Hst;
      try discriminate.
    rewrite run_bind in Hrun.
    destruct (run (in_template st) w s3) as [[[] | e | ] s4]; try discriminate.
    assert (Hprop : st = get_property g "status").
    { destruct g; simpl in Hst; try discriminate; injection Hst as <- _; reflexivity. }
    destruct (strict_eq_string st "completed") eqn:Hdone.
    + simpl in Hrun. injection Hrun as <- _.
      unfold is_completed. rewrite <- Hprop. exact Hdone.
    + simpl in Hrun. eapply IH, Hrun.
Qed.

Lemma is_completed_not_null (generation : json) :
  is_completed generation = true -> generation <> JNull.
Proof. intros H ->. discriminate H. Qed.

Lemma run_member (j : json) (k : string) (w : world) (s : state) :
  j <> JNull -> run (member (Some j) k) w s = (Returned (get_property j k), s).
Proof. destruct j; simpl; congruence. Qed.

Lemma run_interpolateVideos (id1 id2 : value) (prompt : string) (w : world) (s : state) :
  snd (run (interpolateVideos id1 id2 prompt) w s)
  = record_fetch (interpolation_request id1 id2 prompt)
                 (w (calls s) (interpolation_request id1 id2 prompt)) s.
Proof.
  unfold interpolateVideos, interpolation_request. simpl.
  destruct (w (calls s) (POST luma_generations (interpolation_payload id1 id2 prompt)));
    reflexivity.
Qed.

Lemma run_member_returned (j : json) (k : string) (w : world) (s : state)
      (v : value) (s' : state) :
  run (member (Some j) k) w s = (Returned v, s') -> v = get_property j k /\ s' = s.
Proof.
  destruct j; simpl; intros H; try discriminate; injection H as <- <-; auto.
Qed.

(** What a successful [initializeBackground] commits: the id of the
    generation it created and the [video_url] of the answer that reported
    it completed. *)
Lemma initialize_commits_completed_generation
      (fuel : nat) (w : world) (s0 s : state) :
  run (initializeBackground_try fuel) w s0 = (Returned tt, s) ->
  exists genResponse generation,
    is_completed generation = true
    /\ currentVideo s = {| id := get_property genResponse "id";
                           video_url := get_property generation "video_url" |}.
Proof.
  unfold initializeBackground_try. intros H.
  rewrite run_bind in H. cbn [run] in H. rewrite run_bind in H.
  destruct (run (generatePromptForLuma (currentPrompt s0)) w s0) as [[p | e | ] s1];
    try discriminate.
  rewrite run_bind in H. cbn [run] in H. rewrite run_bind in H. cbn [run] in H.
  rewrite run_bind in H.
  destruct (run (generateVideo (currentPrompt (set_prompt p s1))) w (set_prompt p s1))
    as [[genResponse | e | ] s2]; try discriminate.
  rewrite run_bind in H.
  destruct (run (member (Some genResponse) "id") w s2) as [[genId | e | ] s3] eqn:Hid;
    try discriminate.
  apply run_member_returned in Hid. destruct Hid as [-> ->].
  rewrite run_bind in H.
  destruct (run (pollGeneration fuel (get_property genResponse "id") default_interval) w s2)
    as [[generation | e | ] s4] eqn:Hpoll; try discriminate.
  rewrite run_bind in H.
  destruct (run (member (Some generation) "video_url") w s4) as [[url | e | ] s5] eqn:Hurl;
    try discriminate.
  apply run_member_returned in Hurl. destruct Hurl as [-> ->].
  cbn [run] in H. injection H as <-.
  exists genResponse, generation. split; [ | reflexivity ].
  eapply poll_returned_completed, Hpoll.
Qed.

(** C2: when the [try] block of [updateBackground] throws, at whichever
    step, [updateBackground] catches the error and returns with
    [currentVideo] and [currentPrompt] as they were before the cycle, here
    as a successful [initializeBackground] committed them: the video URL of
    the generation it saw completed is still the one the endpoint
    answers with. *)
Theorem failed_update_keeps_committed_state
        (fuel0 : nat) (w0 : world) (s0 s : state)
        (fuel : nat) (w : world) (e : exn) (s1 : state) :
  run (initializeBackground_try fuel0) w0 s0 = (Returned tt, s) ->
  run (updateBackground_try fuel) w s = (Raised e, s1) ->
  exists s',
    run (updateBackground fuel) w s = (Returned tt, s')
    /\ currentVideo s' = currentVideo s
    /\ currentPrompt s' = currentPrompt s
    /\ current s' = current s
    /\ (exists generation,
          is_completed generation = true
          /\ video_url (currentVideo s') = get_property generation "video_url")
    /\ (forall url, video_url (currentVideo s) = Some url -> truthy (Some url) = true ->
                    current s' = video_ready url).
Proof.
  intros Hinit Hfail.
  pose proof (updateBackground_try_keeps_variables fuel w s) as Hkept.
  unfold updateBackground. rewrite run_try_catch, Hfail in *. cbn [run].
  destruct Hkept as [Hv Hp].
  exists s1. repeat split; auto.
  - unfold current. rewrite Hv. reflexivity.
  - destruct (initialize_commits_completed_generation fuel0 w0 s0 s Hinit)
      as (genResponse & generation & Hdone & Hcommitted).
    exists generation. split; [ exact Hdone | ]. rewrite Hv, Hcommitted. reflexivity.
  - intros url Hurl Htruthy. unfold current, current_video. rewrite Hv, Hurl, Htruthy.
    reflexivity.
Qed.

Lemma initializeBackground_never_raises (fuel : nat) (w : world) (s : state) :
  forall e, fst (run (initializeBackground fuel) w s) <> Raised e.
Proof.
  intros e. unfold initializeBackground. rewrite run_try_catch.
  destruct (run (initializeBackground_try fuel) w s) as [[[] | e' | ] s']; simpl; discriminate.
Qed.

(** C9: while [currentVideo] is as the script creates it, the endpoint
    answers 503 "Video not ready yet", which is not the answer for any
    video URL; [initializeBackground] never lets an exception escape, and
    when its [try] block fails it returns with the endpoint still
    answering 503. *)
Theorem not_ready_before_first_commit :
  current initial_state = not_ready
  /\ status not_ready = 503%Z
  /\ (forall url, video_ready url <> not_ready)
  /\ (forall fuel w s e, fst (run (initializeBackground fuel) w s) <> Raised e)
  /\ (forall fuel w s e s1,
        currentVideo s = initial_video ->
        run (initializeBackground_try fuel) w s = (Raised e, s1) ->
        exists s', run (initializeBackground fuel) w s = (Returned tt, s')
                   /\ current s' = not_ready).
Proof.
  split; [ reflexivity | split; [ reflexivity | split; [ | split ] ] ].
  - intros url H. discriminate H.
  - intros fuel w s e. apply initializeBackground_never_raises.
  - intros fuel w s e s1 Hunset Hfail.
    pose proof (initializeBackground_try_keeps_video fuel w s) as Hkept.
    unfold initializeBackground. rewrite run_try_catch, Hfail in *. cbn [run].
    exists s1. split; [ reflexivity | ].
    unfold current. rewrite Hkept, Hunset. reflexivity.
Qed.

(** C6, as the code has it: [generateVideo] sends one request and returns
    the parsed body of the answer whatever it holds, so the caller finds
    the id the remote system assigned when the body has one and
    [undefined] when it has none; it throws, passing the error on to its
    caller, when no answer arrives or when the body is not JSON. *)
Theorem generateVideo_outcomes (prompt : string) (w : world) (s : state) :
  let req := POST luma_generations (generation_payload prompt) in
  let r := w (calls s) req in
  snd (run (generateVideo prompt) w s) = record_fetch req r s
  /\ (r = NetworkError -> fst (run (generateVideo prompt) w s) = Raised FetchError)
  /\ (r = InvalidBody -> fst (run (generateVideo prompt) w s) = Raised SyntaxError)
  /\ (forall data, r = Body data ->
        fst (run (generateVideo prompt) w s) = Returned data).
Proof.
  cbv zeta. unfold generateVideo. simpl.
  destruct (w (calls s) (POST luma_generations (generation_payload prompt)))
    as [ | | data]; simpl; repeat split; auto; try discriminate.
  intros data' H. injection H as ->. reflexivity.
Qed.

(** C1: in the end-to-end scenario, after [initializeBackground] the
    endpoint answers with the URL of job "A"; after one [updateBackground]
    it answers with the URL of the interpolation "C", and the one
    interpolation request that was sent names the generations "A" and "B"
    as its two keyframes. *)
Theorem end_to_end_scenario (fuel : nat) :
  let s1 := snd (run (initializeBackground (S fuel)) scenario_world initial_state) in
  let s2 := snd (run (updateBackground (S fuel)) scenario_world s1) in
  current s1 = video_ready (JStr "http://x/a.mp4")
  /\ current s2 = video_ready (JStr "http://x/c.mp4")
  /\ interpolations (log s2) = [(Some (JStr "A"), Some (JStr "B"))].
Proof.
  cbv zeta. repeat split; reflexivity.
Qed.

(** C7: where [initializeBackground] parts from the claim.  The prompt
    service answers, the video service cannot be reached: the function
    ends with [currentVideo] untouched and [currentPrompt] replaced by the
    generated prompt. *)
Theorem failed_initialize_keeps_new_prompt (fuel : nat) :
  let w := video_service_down "Misty forest at dawn" in
  exists e s1 s',
    run (initializeBackground_try fuel) w initial_state = (Raised e, s1)
    /\ run (initializeBackground fuel) w initial_state = (Returned tt, s')
    /\ currentVideo s' = currentVideo initial_state
    /\ currentPrompt initial_state = "A peaceful dynamic nature background"
    /\ currentPrompt s' = "Misty forest at dawn".
Proof.
  cbv zeta. do 3 eexists. repeat split; reflexivity.
Qed.

(** ** The event loop and [run] *)

Lemma resume_alone (j : job) (p : prog unit) (v : video) (pr : string) (t : task) :
  resume 0 j p {| video_now := v; prompt_now := pr; inflight := [t] |}
  = spawn j p {| video_now := v; prompt_now := pr; inflight := [] |}.
Proof.
  unfold resume, spawn. simpl.
  destruct (advance p v pr) as [[v' pr'] [q | ]]; reflexivity.
Qed.

(** A task that is alone in flight goes through the event loop as [run]
    takes it through the same answers: the variables end up the same, and
    the task has left the loop unless [run] is out of iterations. *)
Lemma event_loop_agrees_with_run (fuel : nat) (j : job) (w : world) (p : prog unit) :
  forall s,
    let srv := turns fuel (spawn j p (idle s)) (solo_inputs p w s) in
    video_now srv = currentVideo (snd (run p w s))
    /\ prompt_now srv = currentPrompt (snd (run p w s))
    /\ (inflight srv = [] <-> fst (run p w s) <> Running).
Proof.
  induction p as [a | e | | req k IH | ms k IH | k IH | v k IH | k IH | p' k IH];
    intros s; cbv zeta.
  - simpl. repeat split; auto. discriminate.
  - simpl. repeat split; auto. discriminate.
  - simpl. repeat split; auto; [ discriminate | intros H; now elim H ].
  - cbn [solo_inputs run]. unfold turns. cbn [fold_left].
    replace (turn fuel (spawn j (Fetch req k) (idle s)) (Settle 0 (w (calls s) req)))
      with (spawn j (k (w (calls s) req)) (idle (record_fetch req (w (calls s) req) s)))
      by (symmetry; apply resume_alone).
    apply (IH (w (calls s) req) (record_fetch req (w (calls s) req) s)).
  - cbn [solo_inputs run]. unfold turns. cbn [fold_left].
    replace (turn fuel (spawn j (Sleep ms k) (idle s)) (Wake 0))
      with (spawn j k (idle (record_sleep ms s)))
      by (symmetry; apply resume_alone).
    apply (IH (record_sleep ms s)).
  - apply (IH (currentVideo s) s).
  - apply (IH (set_video v s)).
  - apply (IH (currentPrompt s) s).
  - apply (IH (set_prompt p' s)).
Qed.

(** ** The timer *)

Lemma cycles_in_flight_spawn (fuel : nat) (srv : server) :
  exists k,
    turn fuel srv Tick
    = {| video_now := video_now srv; prompt_now := prompt_now srv;
         inflight := inflight srv
                     ++ [{| kind := RefreshCycle;
                            rest := Fetch (completion_request (prompt_now srv)) k |}] |}.
Proof.
  unfold turn, spawn, updateBackground, updateBackground_try, generatePromptForLuma.
  simpl. eexists. reflexivity.
Qed.

Lemma cycles_in_flight_app (v : video) (p : string) (l : list task) (t : task) :
  kind t = RefreshCycle ->
  cycles_in_flight {| video_now := v; prompt_now := p; inflight := l ++ [t] |}
  = S (cycles_in_flight {| video_now := v; prompt_now := p; inflight := l |}).
Proof.
  intros Hk. unfold cycles_in_flight. simpl.
  rewrite filter_app, length_app. simpl. rewrite Hk. simpl. lia.
Qed.

Lemma cycles_after_ticks (fuel n : nat) (srv : server) :
  cycles_in_flight (turns fuel srv (repeat Tick n)) = (cycles_in_flight srv + n)%nat.
Proof.
  revert srv. induction n as [ | n IH]; intros srv.
  - simpl. lia.
  - cbn [repeat]. unfold turns in *. cbn [fold_left]. rewrite IH.
    destruct (cycles_in_flight_spawn fuel srv) as [k ->].
    rewrite cycles_in_flight_app by reflexivity.
    destruct srv; simpl. lia.
Qed.

(** C8, as the code has it: every tick of the interval starts a refresh
    cycle, whatever is in flight.  The tasks in flight stay as they are and
    the new cycle joins them, waiting for its prompt; the tick is neither
    dropped nor queued.  Refresh cycles overlap each other and
    [initializeBackground]: [n] ticks in a row after the start leave [n]
    cycles in flight next to it. *)
Theorem every_tick_starts_a_cycle (fuel : nat) :
  (forall srv,
     exists k,
       inflight (turn fuel srv Tick)
       = (inflight srv ++ [{| kind := RefreshCycle;
                              rest := Fetch (completion_request (prompt_now srv)) k |}])%list
       /\ cycles_in_flight (turn fuel srv Tick) = S (cycles_in_flight srv)
       /\ video_now (turn fuel srv Tick) = video_now srv
       /\ prompt_now (turn fuel srv Tick) = prompt_now srv)
  /\ (forall n,
        cycles_in_flight (turns fuel (boot fuel) (repeat Tick n)) = n
        /\ initialize_in_flight (turns fuel (boot fuel) (repeat Tick n)) = true).
Proof.
  split.
  - intros srv. destruct (cycles_in_flight_spawn fuel srv) as [k Hk]. exists k.
    rewrite Hk. simpl. repeat split.
    rewrite cycles_in_flight_app by reflexivity. destruct srv; reflexivity.
  - intros n. split.
    + rewrite cycles_after_ticks. reflexivity.
    + induction n as [ | n IH]; [ reflexivity | ].
      replace (S n) with (n + 1)%nat by lia. rewrite repeat_app.
      unfold turns in *. rewrite fold_left_app. cbn [repeat fold_left].
      destruct (cycles_in_flight_spawn fuel (fold_left (turn fuel) (repeat Tick n) (boot fuel)))
        as [k ->].
      unfold initialize_in_flight in *. simpl. rewrite existsb_app, IH. reflexivity.
Qed.

(** ** The event loop: when the video changes *)

Lemma no_wait_video_at_end (A : Type) (p : prog A) : no_wait p -> video_at_end p.
Proof.
  induction p; simpl; auto; contradiction.
Qed.

Lemma no_wait_try_catch (A : Type) (p : prog A) (h : exn -> prog A) :
  no_wait p -> (forall e, no_wait (h e)) -> no_wait (try_catch p h).
Proof.
  intros Hp Hh. induction p; simpl in *; auto.
Qed.

Lemma video_at_end_try_catch (A : Type) (p : prog A) (h : exn -> prog A) :
  video_at_end p -> (forall e, no_wait (h e)) -> video_at_end (try_catch p h).
Proof.
  intros Hp Hh. induction p; simpl in *; auto.
  - apply no_wait_video_at_end, Hh.
  - apply no_wait_try_catch; auto.
Qed.

Lemma video_at_end_bind (A B : Type) (p : prog A) (f : A -> prog B) :
  assigns_no_video true p -> (forall a, video_at_end (f a)) -> video_at_end (bind p f).
Proof.
  intros Hp Hf. induction p; simpl in *; auto. contradiction.
Qed.

Lemma advance_no_wait (p : prog unit) (v : video) (pr : string) :
  no_wait p -> snd (advance p v pr) = None.
Proof.
  revert v pr. induction p; intros v0 pr0 Hp; simpl in *; auto; contradiction.
Qed.

Lemma advance_video_at_end (p : prog unit) :
  forall (v : video) (pr : string) (v' : video) (pr' : string) (q : prog unit),
    video_at_end p ->
    advance p v pr = (v', pr', Some q) ->
    v' = v /\ video_at_end q.
Proof.
  induction p as [a | e | | req k IH | ms k IH | k IH | v0 k IH | k IH | p0 k IH];
    intros v pr v' pr' q Hp Hadv; simpl in *.
  - discriminate.
  - discriminate.
  - injection Hadv as <- <- <-. auto.
  - injection Hadv as <- <- <-. auto.
  - injection Hadv as <- <- <-. auto.
  - eapply IH; eauto.
  - pose proof (advance_no_wait k v0 pr Hp) as Hnone. rewrite Hadv in Hnone. discriminate.
  - eapply IH; eauto.
  - eapply IH; eauto.
Qed.

Lemma initializeBackground_video_at_end (fuel : nat) :
  video_at_end (initializeBackground fuel).
Proof.
  unfold initializeBackground, initializeBackground_try.
  apply video_at_end_try_catch; [ | intros e; exact I ].
  apply video_at_end_bind; [ intros p; exact I | intros basePrompt ].
  apply video_at_end_bind; [ apply generatePrompt_assigns_nothing | intros prompt ].
  apply video_at_end_bind; [ exact I | intros _ ].
  apply video_at_end_bind; [ intros p; exact I | intros prompt' ].
  apply video_at_end_bind; [ apply generateVideo_assigns_nothing | intros genResponse ].
  apply video_at_end_bind; [ apply member_assigns_nothing | intros genId ].
  apply video_at_end_bind; [ apply pollGeneration_assigns_nothing | intros generation ].
  apply video_at_end_bind; [ apply member_assigns_nothing | intros url ].
  exact I.
Qed.

Lemma updateBackground_video_at_end (fuel : nat) :
  video_at_end (updateBackground fuel).
Proof.
  unfold updateBackground, updateBackground_try.
  apply video_at_end_try_catch; [ | intros e; exact I ].
  apply video_at_end_bind; [ intros p; exact I | intros basePrompt ].
  apply video_at_end_bind; [ apply generatePrompt_assigns_nothing | intros newPrompt ].
  apply video_at_end_bind; [ apply generateVideo_assigns_nothing | intros newGenResponse ].
  apply video_at_end_bind; [ apply member_assigns_nothing | intros newGenId ].
  apply video_at_end_bind; [ apply pollGeneration_assigns_nothing | intros newGeneration ].
  apply video_at_end_bind; [ apply member_assigns_nothing | intros _ ].
  apply video_at_end_bind; [ intros v; exact I | intros current ].
  apply video_at_end_bind; [ apply interpolateVideos_assigns_nothing | intros interpResponse ].
  apply video_at_end_bind; [ apply member_assigns_nothing | intros interpGenId ].
  apply video_at_end_bind; [ apply pollGeneration_assigns_nothing | intros interpolated ].
  apply video_at_end_bind; [ apply member_assigns_nothing | intros url ].
  simpl. exact I.
Qed.

Lemma replace_task_some (n : nat) (t : task) (l : list task) :
  List.length (replace_task n (Some t) l) = List.length l.
Proof.
  revert n. induction l as [ | x l IH]; intros [ | n]; simpl; auto.
Qed.

Lemma replace_task_none (n : nat) (l : list task) (t : task) :
  nth_error l n = Some t ->
  S (List.length (replace_task n None l)) = List.length l.
Proof.
  revert n. induction l as [ | x l IH]; intros [ | n] H; simpl in *; try discriminate; auto.
Qed.

Lemma replace_task_Forall (P : task -> Prop) (n : nat) (t : option task) (l : list task) :
  Forall P l -> (forall t', t = Some t' -> P t') -> Forall P (replace_task n t l).
Proof.
  intros Hl Ht. revert n. induction Hl as [ | x l Hx Hl IH]; intros [ | n]; simpl; auto.
  destruct t as [t' | ]; auto.
Qed.

Lemma resume_commits_at_end (n : nat) (j : job) (p : prog unit) (srv : server) (t : task) :
  nth_error (inflight srv) n = Some t ->
  video_at_end p -> tasks_commit_at_end srv ->
  tasks_commit_at_end (resume n j p srv)
  /\ (video_now (resume n j p srv) = video_now srv
      \/ (List.length (inflight (resume n j p srv)) < List.length (inflight srv))%nat).
Proof.
  intros Hn Hp Hinv. unfold resume.
  destruct (advance p (video_now srv) (prompt_now srv)) as [[v pr] [q | ]] eqn:Hadv.
  - destruct (advance_video_at_end p _ _ _ _ _ Hp Hadv) as [-> Hq].
    split; [ | left; reflexivity ].
    unfold tasks_commit_at_end. simpl. apply replace_task_Forall; [ exact Hinv | ].
    intros t' Ht'. injection Ht' as <-. exact Hq.
  - split.
    + unfold tasks_commit_at_end. simpl. apply replace_task_Forall; [ exact Hinv | ].
      intros t' Ht'. discriminate.
    + right. simpl. pose proof (replace_task_none n (inflight srv) t Hn). lia.
Qed.

Lemma tick_commits_at_end (fuel : nat) (srv : server) :
  tasks_commit_at_end srv ->
  tasks_commit_at_end (turn fuel srv Tick)
  /\ video_now (turn fuel srv Tick) = video_now srv.
Proof.
  intros Hinv. destruct (cycles_in_flight_spawn fuel srv) as [k Hk].
  split; [ | rewrite Hk; reflexivity ].
  revert Hk. unfold turn, spawn.
  destruct (advance (updateBackground fuel) (video_now srv) (prompt_now srv))
    as [[v pr] [q | ]] eqn:Hadv; intros Hk.
  - destruct (advance_video_at_end _ _ _ _ _ _ (updateBackground_video_at_end fuel) Hadv)
      as [_ Hq].
    unfold tasks_commit_at_end. simpl. apply Forall_app. split; [ exact Hinv | ].
    constructor; [ exact Hq | constructor ].
  - apply (f_equal (fun x => List.length (inflight x))) in Hk. simpl in Hk.
    rewrite length_app in Hk. simpl in Hk. lia.
Qed.

Lemma turn_commits_at_end (fuel : nat) (srv : server) (i : input) :
  tasks_commit_at_end srv ->
  tasks_commit_at_end (turn fuel srv i)
  /\ (video_now (turn fuel srv i) = video_now srv
      \/ (List.length (inflight (turn fuel srv i)) < List.length (inflight srv))%nat).
Proof.
  intros Hinv. destruct i as [ | n r | n | ].
  - destruct (tick_commits_at_end fuel srv Hinv) as [H1 H2]. auto.
  - cbn [turn]. destruct (nth_error (inflight srv) n) as [[j p] | ] eqn:Hn; auto.
    assert (Hp : video_at_end p).
    { unfold tasks_commit_at_end in Hinv. rewrite Forall_forall in Hinv.
      apply (Hinv _ (nth_error_In _ _ Hn)). }
    destruct p; auto.
    eapply resume_commits_at_end; eauto.
  - cbn [turn]. destruct (nth_error (inflight srv) n) as [[j p] | ] eqn:Hn; auto.
    assert (Hp : video_at_end p).
    { unfold tasks_commit_at_end in Hinv. rewrite Forall_forall in Hinv.
      apply (Hinv _ (nth_error_In _ _ Hn)). }
    destruct p; auto.
    eapply resume_commits_at_end; eauto.
  - auto.
Qed.

Lemma boot_commits_at_end (fuel : nat) : tasks_commit_at_end (boot fuel).
Proof.
  unfold boot, spawn. cbn [video_now prompt_now inflight].
  destruct (advance (initializeBackground fuel) initial_video initial_prompt)
    as [[v pr] [q | ]] eqn:Hadv.
  - destruct (advance_video_at_end _ _ _ _ _ _ (initializeBackground_video_at_end fuel) Hadv)
      as [_ Hq].
    unfold tasks_commit_at_end. simpl. constructor; [ exact Hq | constructor ].
  - constructor.
Qed.

Lemma turns_commit_at_end (fuel : nat) (inputs : list input) (srv : server) :
  tasks_commit_at_end srv -> tasks_commit_at_end (turns fuel srv inputs).
Proof.
  revert srv. induction inputs as [ | i inputs IH]; intros srv Hinv; simpl; auto.
  apply IH. apply turn_commits_at_end, Hinv.
Qed.

(** X13: the video the endpoint shows changes only in a turn of the event
    loop in which a task ends.  Whatever has arrived since the start and
    however many tasks overlap, a turn either leaves [currentVideo] as it
    was or takes a task out of flight: while a task waits, nothing of its
    video is visible. *)
Theorem video_changes_only_when_a_task_ends
        (fuel : nat) (inputs : list input) (i : input) :
  let srv := turns fuel (boot fuel) inputs in
  video_now (turn fuel srv i) = video_now srv
  \/ (List.length (inflight (turn fuel srv i)) < List.length (inflight srv))%nat.
Proof.
  cbv zeta.
  apply turn_commits_at_end, turns_commit_at_end, boot_commits_at_end.
Qed.

(** ** The video an interpolation starts from *)

Lemma interpolates_from_weaken (A : Type) (p : prog A) :
  forall seen, interpolates_from None p -> interpolates_from seen p.
Proof.
  induction p as [a | e | | req k IH | ms k IH | k IH | v k IH | k IH | pr k IH];
    intros seen Hp; simpl in *; auto.
  destruct Hp as [Hreq Hk]. split; [ | exact Hk ].
  intros Hint. destruct (Hreq Hint) as (v & Hnone & _). discriminate Hnone.
Qed.

Lemma interpolates_from_bind (A B : Type) (p : prog A) (f : A -> prog B) :
  never_interpolates p -> (forall a, interpolates_from None (f a)) ->
  forall seen, interpolates_from seen (bind p f).
Proof.
  intros Hp Hf.
  induction p as [a | e | | req k IH | ms k IH | k IH | v k IH | k IH | pr k IH];
    intros seen; simpl in *; auto.
  - apply interpolates_from_weaken, Hf.
  - destruct Hp as [Hreq Hk]. split; [ | intros r; apply IH, Hk ].
    intros Hint. rewrite Hreq in Hint. discriminate Hint.
Qed.

Lemma interpolates_from_try_catch (A : Type) (p : prog A) (h : exn -> prog A) :
  (forall e seen, interpolates_from seen (h e)) ->
  forall seen, interpolates_from seen p -> interpolates_from seen (try_catch p h).
Proof.
  intros Hh.
  induction p as [a | e | | req k IH | ms k IH | k IH | v k IH | k IH | pr k IH];
    intros seen Hp; simpl in *; auto.
  destruct Hp as [Hreq Hk]. split; [ exact Hreq | intros r; apply IH, Hk ].
Qed.

Lemma never_interpolates_bind (A B : Type) (p : prog A) (f : A -> prog B) :
  never_interpolates p -> (forall a, never_interpolates (f a)) ->
  never_interpolates (bind p f).
Proof.
  intros Hp Hf. induction p; simpl in *; auto.
  destruct Hp. auto.
Qed.

Lemma never_interpolates_try_catch (A : Type) (p : prog A) (h : exn -> prog A) :
  never_interpolates p -> (forall e, never_interpolates (h e)) ->
  never_interpolates (try_catch p h).
Proof.
  intros Hp Hh. induction p; simpl in *; auto.
  destruct Hp. auto.
Qed.

Lemma fetch_json_never_interpolates (req : request) :
  is_interpolation req = false -> never_interpolates (fetch_json req).
Proof. intros Hreq. split; [ exact Hreq | intros [ | | data]; exact I ]. Qed.

Lemma member_never_interpolates (v : value) (k : string) : never_interpolates (member v k).
Proof. destruct v as [[ | | | | | | ] | ]; exact I. Qed.

Lemma in_template_never_interpolates (v : value) : never_interpolates (in_template v).
Proof.
  destruct v as [j | ]; simpl; [ | exact I ].
  destruct (to_primitive_throws j); exact I.
Qed.

Lemma call_trim_never_interpolates (v : value) : never_interpolates (call_trim v).
Proof. destruct v as [[ | | | | | | ] | ]; exact I. Qed.

Lemma gt_zero_never_interpolates (v : value) : never_interpolates (gt_zero v).
Proof.
  destruct v as [[ | | | | | | ] | ]; simpl; try exact I;
    match goal with |- context [if ?c then _ else _] => destruct c end; exact I.
Qed.

Lemma generatePrompt_never_interpolates (basePrompt : string) :
  never_interpolates (generatePromptForLuma basePrompt).
Proof.
  unfold generatePromptForLuma.
  apply never_interpolates_try_catch; [ | intros e; exact I ].
  apply never_interpolates_bind;
    [ apply fetch_json_never_interpolates; reflexivity | intros data ].
  apply never_interpolates_bind; [ apply member_never_interpolates | intros choices ].
  apply never_interpolates_bind.
  - destruct (truthy choices); [ | exact I ].
    apply never_interpolates_bind;
      [ apply member_never_interpolates | intros len; apply gt_zero_never_interpolates ].
  - intros [ | ]; [ | exact I ].
    apply never_interpolates_bind; [ apply member_never_interpolates | intros first ].
    apply never_interpolates_bind;
      [ apply member_never_interpolates | intros text; apply call_trim_never_interpolates ].
Qed.

Lemma generateVideo_never_interpolates (prompt : string) :
  never_interpolates (generateVideo prompt).
Proof.
  unfold generateVideo. apply never_interpolates_try_catch; [ | intros e; exact I ].
  apply never_interpolates_bind;
    [ apply fetch_json_never_interpolates; reflexivity | intros data; exact I ].
Qed.

Lemma getGeneration_never_interpolates (generationId : value) :
  never_interpolates (getGeneration generationId).
Proof.
  unfold getGeneration. apply never_interpolates_try_catch; [ | intros e; exact I ].
  apply never_interpolates_bind; [ apply in_template_never_interpolates | intros _ ].
  apply never_interpolates_bind;
    [ apply fetch_json_never_interpolates; reflexivity | intros data; exact I ].
Qed.

Lemma pollGeneration_never_interpolates (fuel : nat) (generationId : value) (interval : Z) :
  never_interpolates (pollGeneration fuel generationId interval).
Proof.
  induction fuel as [ | fuel IH]; cbn [pollGeneration]; [ exact I | ].
  apply never_interpolates_bind;
    [ apply getGeneration_never_interpolates | intros generation ].
  apply never_interpolates_bind; [ apply in_template_never_interpolates | intros _ ].
  apply never_interpolates_bind; [ apply member_never_interpolates | intros status ].
  apply never_interpolates_bind; [ apply in_template_never_interpolates | intros _ ].
  destruct (strict_eq_string status "completed"); simpl; auto.
Qed.

Lemma never_interpolates_from (A : Type) (p : prog A) :
  never_interpolates p -> forall seen, interpolates_from seen p.
Proof.
  intros Hp.
  induction p as [a | e | | req k IH | ms k IH | k IH | v k IH | k IH | pr k IH];
    intros seen; simpl in *; auto.
  destruct Hp as [Hreq Hk]. split; [ | intros r; apply IH, Hk ].
  intros Hint. rewrite Hreq in Hint. discriminate Hint.
Qed.

(** The ids in the keyframes of the payload of [interpolateVideos] are the
    ids it was given, as [JSON.stringify] writes them. *)
Lemma interpolation_payload_ids (videoId1 videoId2 : value) (prompt : string) :
  keyframe_id (interpolation_payload videoId1 videoId2 prompt) "frame0" = sent_id videoId1
  /\ keyframe_id (interpolation_payload videoId1 videoId2 prompt) "frame1" = sent_id videoId2
  /\ second_keyframe (interpolation_payload videoId1 videoId2 prompt) <> None.
Proof.
  repeat split.
  - destruct videoId1; reflexivity.
  - destruct videoId2; reflexivity.
  - discriminate.
Qed.

Lemma interpolateVideos_from_read (B : Type) (v : video) (videoId2 : value)
      (prompt : string) (f : json -> prog B) :
  (forall a, interpolates_from None (f a)) ->
  interpolates_from (Some v) (bind (interpolateVideos (id v) videoId2 prompt) f).
Proof.
  intros Hf. unfold interpolateVideos. simpl. split.
  - intros _. exists v. split; [ reflexivity | ].
    apply (interpolation_payload_ids (id v) videoId2 prompt).
  - intros [ | | data]; simpl; auto.
Qed.

Lemma interpolates_from_read_video (B : Type) (seen : option video) (f : video -> prog B) :
  (forall v, interpolates_from (Some v) (f v)) ->
  interpolates_from seen (bind (GetVideo (fun v => Ret v)) f).
Proof. intros Hf v. apply Hf. Qed.

Lemma updateBackground_interpolates_from_read (fuel : nat) :
  forall seen, interpolates_from seen (updateBackground fuel).
Proof.
  intros seen. unfold updateBackground, updateBackground_try.
  apply interpolates_from_try_catch; [ intros e seen'; exact I | ].
  apply interpolates_from_bind; [ intros p; exact I | intros basePrompt ].
  apply interpolates_from_bind; [ apply generatePrompt_never_interpolates | intros newPrompt ].
  apply interpolates_from_bind; [ apply generateVideo_never_interpolates | intros newGenResponse ].
  apply interpolates_from_bind; [ apply member_never_interpolates | intros newGenId ].
  apply interpolates_from_bind; [ apply pollGeneration_never_interpolates | intros newGeneration ].
  apply interpolates_from_bind; [ apply member_never_interpolates | intros _ ].
  apply interpolates_from_read_video. intros current.
  apply interpolateVideos_from_read. intros interpResponse.
  apply interpolates_from_bind; [ apply member_never_interpolates | intros interpGenId ].
  apply interpolates_from_bind; [ apply pollGeneration_never_interpolates | intros interpolated ].
  apply interpolates_from_bind; [ apply member_never_interpolates | intros url ].
  simpl. exact I.
Qed.

Lemma initializeBackground_never_interpolates (fuel : nat) :
  never_interpolates (initializeBackground fuel).
Proof.
  unfold initializeBackground, initializeBackground_try.
  apply never_interpolates_try_catch; [ | intros e; exact I ].
  apply never_interpolates_bind; [ intros p; exact I | intros basePrompt ].
  apply never_interpolates_bind; [ apply generatePrompt_never_interpolates | intros prompt ].
  apply never_interpolates_bind; [ exact I | intros _ ].
  apply never_interpolates_bind; [ intros p; exact I | intros prompt' ].
  apply never_interpolates_bind; [ apply generateVideo_never_interpolates | intros genResponse ].
  apply never_interpolates_bind; [ apply member_never_interpolates | intros genId ].
  apply never_interpolates_bind; [ apply pollGeneration_never_interpolates | intros generation ].
  apply never_interpolates_bind; [ apply member_never_interpolates | intros url ].
  exact I.
Qed.

(** What a task that keeps to [interpolates_from] waits for after it has
    run to its next wait: if that is an interpolation, its first keyframe
    is the id of the video of that moment. *)
Lemma advance_interpolates_from (p : prog unit) :
  forall (seen : option video) (v : video) (pr : string)
         (v' : video) (pr' : string) (q : prog unit),
    (forall x, seen = Some x -> x = v) ->
    interpolates_from seen p ->
    advance p v pr = (v', pr', Some q) ->
    resumes_well q
    /\ forall req k, q = Fetch req k -> is_interpolation req = true ->
                     first_keyframe_id req = sent_id (id v').
Proof.
  induction p as [a | e | | req k IH | ms k IH | k IH | v0 k IH | k IH | p0 k IH];
    intros seen v pr v' pr' q Hseen Hp Hadv; simpl in *.
  - discriminate.
  - discriminate.
  - injection Hadv as <- <- <-. split; [ exact I | intros req k H; discriminate H ].
  - injection Hadv as <- <- <-. destruct Hp as [Hreq Hk]. split; [ exact Hk | ].
    intros req' k' H Hint. injection H as <- <-.
    destruct (Hreq Hint) as (x & Hx & Hid). rewrite (Hseen x Hx) in Hid. exact Hid.
  - injection Hadv as <- <- <-. split; [ exact Hp | intros req k' H; discriminate H ].
  - apply (IH v (Some v) v pr v' pr' q); auto. intros x Hx. congruence.
  - apply (IH (Some v0) v0 pr v' pr' q); auto. intros x Hx. congruence.
  - apply (IH pr seen v pr v' pr' q); auto.
  - apply (IH seen v p0 v' pr' q); auto.
Qed.

Lemma In_replace_task (t : task) (n : nat) (o : option task) (l : list task) :
  In t (replace_task n o l) -> In t l \/ o = Some t.
Proof.
  revert n. induction l as [ | x l IH]; intros [ | n] Hin; simpl in *; auto.
  - destruct o as [t' | ]; simpl in Hin; auto.
    destruct Hin as [<- | Hin]; auto.
  - destruct Hin as [<- | Hin]; auto.
    destruct (IH n Hin); auto.
Qed.

Lemma resume_interpolates (n : nat) (j : job) (p : prog unit) (srv : server) :
  interpolates_from None p -> video_at_end p -> tasks_resume_well srv ->
  tasks_resume_well (resume n j p srv)
  /\ forall t, In t (inflight (resume n j p srv)) ->
               In t (inflight srv)
               \/ (asks_with_current_id (video_now srv) (rest t)
                   /\ video_now (resume n j p srv) = video_now srv).
Proof.
  intros Hp Hend Hinv. unfold resume.
  destruct (advance p (video_now srv) (prompt_now srv)) as [[v pr] [q | ]] eqn:Hadv.
  - destruct (advance_video_at_end p _ _ _ _ _ Hend Hadv) as [-> _].
    destruct (advance_interpolates_from p None _ _ _ _ _ ltac:(discriminate) Hp Hadv)
      as [Hq Hasks].
    split.
    + unfold tasks_resume_well. simpl. apply replace_task_Forall; [ exact Hinv | ].
      intros t' Ht'. injection Ht' as <-. exact Hq.
    + simpl. intros t Hin. apply In_replace_task in Hin. destruct Hin as [Hin | Heq]; auto.
      injection Heq as <-. right. split; [ exact Hasks | reflexivity ].
  - split.
    + unfold tasks_resume_well. simpl. apply replace_task_Forall; [ exact Hinv | ].
      intros t' Ht'. discriminate.
    + simpl. intros t Hin. apply In_replace_task in Hin. destruct Hin as [Hin | Heq]; auto.
      discriminate.
Qed.

Lemma spawn_interpolates (j : job) (p : prog unit) (srv : server) :
  interpolates_from None p -> video_at_end p -> tasks_resume_well srv ->
  tasks_resume_well (spawn j p srv)
  /\ forall t, In t (inflight (spawn j p srv)) ->
               In t (inflight srv)
               \/ (asks_with_current_id (video_now srv) (rest t)
                   /\ video_now (spawn j p srv) = video_now srv).
Proof.
  intros Hp Hend Hinv. unfold spawn.
  destruct (advance p (video_now srv) (prompt_now srv)) as [[v pr] [q | ]] eqn:Hadv.
  - destruct (advance_video_at_end p _ _ _ _ _ Hend Hadv) as [-> _].
    destruct (advance_interpolates_from p None _ _ _ _ _ ltac:(discriminate) Hp Hadv)
      as [Hq Hasks].
    split.
    + unfold tasks_resume_well. simpl. apply Forall_app. split; [ exact Hinv | ].
      constructor; [ exact Hq | constructor ].
    + simpl. intros t Hin. apply in_app_or in Hin. destruct Hin as [Hin | [<- | []]]; auto.
  - split; [ exact Hinv | ]. simpl. auto.
Qed.

Lemma turn_interpolates (fuel : nat) (srv : server) (i : input) :
  tasks_commit_at_end srv -> tasks_resume_well srv ->
  tasks_resume_well (turn fuel srv i)
  /\ forall t, In t (inflight (turn fuel srv i)) ->
               In t (inflight srv)
               \/ (asks_with_current_id (video_now srv) (rest t)
                   /\ video_now (turn fuel srv i) = video_now srv).
Proof.
  intros Hend Hinv. destruct i as [ | n r | n | ].
  - apply spawn_interpolates; auto.
    + apply updateBackground_interpolates_from_read.
    + apply updateBackground_video_at_end.
  - cbn [turn]. destruct (nth_error (inflight srv) n) as [[j p] | ] eqn:Hn; auto.
    assert (Hp : resumes_well p /\ video_at_end p).
    { unfold tasks_resume_well, tasks_commit_at_end in *. rewrite Forall_forall in *.
      split; [ apply (Hinv _ (nth_error_In _ _ Hn)) | apply (Hend _ (nth_error_In _ _ Hn)) ]. }
    destruct Hp as [Hp1 Hp2]. destruct p; auto.
    apply resume_interpolates; auto.
  - cbn [turn]. destruct (nth_error (inflight srv) n) as [[j p] | ] eqn:Hn; auto.
    assert (Hp : resumes_well p /\ video_at_end p).
    { unfold tasks_resume_well, tasks_commit_at_end in *. rewrite Forall_forall in *.
      split; [ apply (Hinv _ (nth_error_In _ _ Hn)) | apply (Hend _ (nth_error_In _ _ Hn)) ]. }
    destruct Hp as [Hp1 Hp2]. destruct p; auto.
    apply resume_interpolates; auto.
  - auto.
Qed.

Lemma boot_resumes_well (fuel : nat) : tasks_resume_well (boot fuel).
Proof.
  unfold boot.
  apply spawn_interpolates.
  - apply never_interpolates_from, initializeBackground_never_interpolates.
  - apply initializeBackground_video_at_end.
  - constructor.
Qed.

Lemma turns_resume_well (fuel : nat) (inputs : list input) (srv : server) :
  tasks_commit_at_end srv -> tasks_resume_well srv ->
  tasks_resume_well (turns fuel srv inputs).
Proof.
  revert srv. induction inputs as [ | i inputs IH]; intros srv Hend Hinv; simpl; auto.
  apply IH.
  - apply turn_commits_at_end, Hend.
  - apply turn_interpolates; auto.
Qed.

(** ** A refresh cycle that is alone in flight *)

(** A task that is alone in flight and gets the answers of [w] comes out
    of a step [p] that returns as [run] does. *)
Lemma solo_bind (fuel : nat) (j : job) (A : Type) (f : A -> prog unit)
      (h : exn -> prog unit) (w : world) (p : prog A) :
  forall (s : state) (a : A) (s1 : state),
    run p w s = (Returned a, s1) ->
    turns fuel (spawn j (try_catch (bind p f) h) (idle s)) (solo_inputs p w s)
    = spawn j (try_catch (f a) h) (idle s1).
Proof.
  induction p as [a0 | e | | req k IH | ms k IH | k IH | v k IH | k IH | p' k IH];
    intros s a s1 Hrun.
  - simpl in Hrun. injection Hrun as <- <-. reflexivity.
  - discriminate Hrun.
  - discriminate Hrun.
  - cbn [solo_inputs run] in *. unfold turns. cbn [fold_left].
    replace (turn fuel (spawn j (try_catch (bind (Fetch req k) f) h) (idle s))
               (Settle 0 (w (calls s) req)))
      with (spawn j (try_catch (bind (k (w (calls s) req)) f) h)
              (idle (record_fetch req (w (calls s) req) s)))
      by (symmetry; apply resume_alone).
    apply (IH _ _ _ _ Hrun).
  - cbn [solo_inputs run] in *. unfold turns. cbn [fold_left].
    replace (turn fuel (spawn j (try_catch (bind (Sleep ms k) f) h) (idle s)) (Wake 0))
      with (spawn j (try_catch (bind k f) h) (idle (record_sleep ms s)))
      by (symmetry; apply resume_alone).
    apply (IH _ _ _ Hrun).
  - apply (IH (currentVideo s) s a s1 Hrun).
  - apply (IH (set_video v s) a s1 Hrun).
  - apply (IH (currentPrompt s) s a s1 Hrun).
  - apply (IH (set_prompt p' s) a s1 Hrun).
Qed.

Lemma spawn_reads_prompt (j : job) (F : string -> prog unit) (h : exn -> prog unit)
      (s : state) :
  spawn j (try_catch (basePrompt <- GetPrompt (fun p => Ret p);; F basePrompt) h) (idle s)
  = spawn j (try_catch (F (currentPrompt s)) h) (idle s).
Proof. reflexivity. Qed.

Lemma turns_app (fuel : nat) (srv : server) (l l' : list input) :
  turns fuel srv (l ++ l') = turns fuel (turns fuel srv l) l'.
Proof. unfold turns. apply fold_left_app. Qed.

Lemma solo_cycle_reaches_interpolation
      (fuel : nat) (w : world) (s : state)
      (newPrompt : string) (s1 : state) (newGenResponse : json) (s2 : state)
      (newGeneration : json) (s3 : state) :
  run (generatePromptForLuma (currentPrompt s)) w s = (Returned newPrompt, s1) ->
  run (generateVideo newPrompt) w s1 = (Returned newGenResponse, s2) ->
  newGenResponse <> JNull ->
  run (pollGeneration fuel (get_property newGenResponse "id") default_interval) w s2
    = (Returned newGeneration, s3) ->
  exists k,
    turns fuel (idle s)
          (Tick :: solo_inputs (generatePromptForLuma (currentPrompt s)) w s
                ++ solo_inputs (generateVideo newPrompt) w s1
                ++ solo_inputs (pollGeneration fuel (get_property newGenResponse "id")
                                               default_interval) w s2)
    = {| video_now := currentVideo s; prompt_now := currentPrompt s;
         inflight :=
           [{| kind := RefreshCycle;
               rest := Fetch (interpolation_request (id (currentVideo s))
                                (get_property newGenResponse "id") interpolation_prompt)
                             k |}] |}.
Proof.
  intros Hprompt Hvideo Hresp Hpoll.
  assert (Hv : currentVideo s3 = currentVideo s /\ currentPrompt s3 = currentPrompt s).
  { pose proof (run_keeps_video false _ _ w s2
                  (pollGeneration_assigns_nothing false fuel
                     (get_property newGenResponse "id") default_interval)) as V3.
    pose proof (run_keeps_video false _ _ w s1
                  (generateVideo_assigns_nothing false newPrompt)) as V2.
    pose proof (run_keeps_video false _ _ w s
                  (generatePrompt_assigns_nothing false (currentPrompt s))) as V1.
    pose proof (run_keeps_prompt _ _ w s2
                  (pollGeneration_assigns_nothing false fuel
                     (get_property newGenResponse "id") default_interval)) as P3.
    pose proof (run_keeps_prompt _ _ w s1
                  (generateVideo_assigns_nothing false newPrompt)) as P2.
    pose proof (run_keeps_prompt _ _ w s
                  (generatePrompt_assigns_nothing false (currentPrompt s))) as P1.
    rewrite Hpoll in V3, P3. rewrite Hvideo in V2, P2. rewrite Hprompt in V1, P1.
    simpl in *. split; congruence. }
  destruct Hv as [Hv Hp].
  change (Tick :: ?l) with ([Tick] ++ l)%list.
  rewrite !turns_app.
  change (turns fuel (idle s) [Tick])
    with (spawn RefreshCycle (updateBackground fuel) (idle s)).
  unfold updateBackground, updateBackground_try.
  rewrite spawn_reads_prompt.
  rewrite (solo_bind fuel RefreshCycle _ _ _ w _ s newPrompt s1 Hprompt).
  rewrite (solo_bind fuel RefreshCycle _ _ _ w _ s1 newGenResponse s2 Hvideo).
  assert (Hmember : forall (F : value -> prog unit) (h : exn -> prog unit),
             spawn RefreshCycle
               (try_catch (newGenId <- member (Some newGenResponse) "id";; F newGenId) h)
               (idle s2)
             = spawn RefreshCycle (try_catch (F (get_property newGenResponse "id")) h)
                     (idle s2)).
  { intros F h. destruct newGenResponse; try reflexivity. contradiction. }
  rewrite Hmember.
  rewrite (solo_bind fuel RefreshCycle _ _ _ w _ s2 newGeneration s3 Hpoll).
  pose proof (is_completed_not_null _ (poll_returned_completed _ _ _ _ _ _ _ Hpoll)) as Hgen.
  unfold spawn, idle. cbn [video_now prompt_now inflight].
  destruct newGeneration; try contradiction; simpl; rewrite Hv, Hp; eexists; reflexivity.
Qed.

(** C10, as the code has it.  [updateBackground] does not look at
    [currentVideo] before it starts: every tick starts a cycle, which waits
    for its prompt, whatever [currentVideo] is.  A cycle that runs with no
    other task in flight while [currentVideo.id] is null, and whose new
    generation is created and polled to completion, then asks for the
    interpolation with null as the first keyframe and the new generation
    as the second.  With other tasks in flight, the first keyframe of an
    interpolation is the [currentVideo.id] of the turn in which the cycle
    asks for it: null when nothing has been committed by then. *)
Theorem update_interpolates_from_current_video (fuel : nat) :
  (forall srv, exists k,
      inflight (turn fuel srv Tick)
      = (inflight srv
         ++ [{| kind := RefreshCycle;
                rest := Fetch (completion_request (prompt_now srv)) k |}])%list)
  /\ (forall (w : world) (s : state)
             (newPrompt : string) (s1 : state) (newGenResponse : json) (s2 : state)
             (newGeneration : json) (s3 : state),
        id (currentVideo s) = null ->
        run (generatePromptForLuma (currentPrompt s)) w s = (Returned newPrompt, s1) ->
        run (generateVideo newPrompt) w s1 = (Returned newGenResponse, s2) ->
        newGenResponse <> JNull ->
        run (pollGeneration fuel (get_property newGenResponse "id") default_interval) w s2
          = (Returned newGeneration, s3) ->
        exists k,
          turns fuel (idle s)
                (Tick :: solo_inputs (generatePromptForLuma (currentPrompt s)) w s
                      ++ solo_inputs (generateVideo newPrompt) w s1
                      ++ solo_inputs (pollGeneration fuel (get_property newGenResponse "id")
                                                     default_interval) w s2)
          = {| video_now := currentVideo s; prompt_now := currentPrompt s;
               inflight :=
                 [{| kind := RefreshCycle;
                     rest := Fetch (interpolation_request null
                                      (get_property newGenResponse "id")
                                      interpolation_prompt) k |}] |}
          /\ first_keyframe_id (interpolation_request null
                                  (get_property newGenResponse "id") interpolation_prompt)
             = null)
  /\ (forall (inputs : list input) (i : input) (t : task)
             (req : request) (k : response -> prog unit),
        In t (inflight (turn fuel (turns fuel (boot fuel) inputs) i)) ->
        rest t = Fetch req k ->
        is_interpolation req = true ->
        In t (inflight (turns fuel (boot fuel) inputs))
        \/ (first_keyframe_id req = sent_id (id (video_now (turns fuel (boot fuel) inputs)))
            /\ (id (video_now (turns fuel (boot fuel) inputs)) = null ->
                first_keyframe_id req = null))).
Proof.
  split; [ | split ].
  - intros srv. destruct (cycles_in_flight_spawn fuel srv) as [k Hk].
    exists k. rewrite Hk. reflexivity.
  - intros w s newPrompt s1 newGenResponse s2 newGeneration s3
           Hnull Hprompt Hvideo Hresp Hpoll.
    destruct (solo_cycle_reaches_interpolation fuel w s newPrompt s1 newGenResponse s2
                newGeneration s3 Hprompt Hvideo Hresp Hpoll) as [k Hk].
    exists k. rewrite Hk, Hnull. split; reflexivity.
  - intros inputs i t req k Hin Hrest Hint.
    destruct (turn_interpolates fuel (turns fuel (boot fuel) inputs) i) as [_ Hnew].
    + apply turns_commit_at_end, boot_commits_at_end.
    + apply turns_resume_well; [ apply boot_commits_at_end | apply boot_resumes_well ].
    + destruct (Hnew t Hin) as [Hold | [Hasks _]]; [ left; exact Hold | right ].
      pose proof (Hasks req k Hrest Hint) as Hid. split; [ exact Hid | ].
      intros Hnull. rewrite Hid, Hnull. reflexivity.
Qed.

(** * Further properties of the script *)

(** ** The gateway functions *)

Lemma run_in_template_pure (v : value) (w : world) (s : state) :
  snd (run (in_template v) w s) = s.
Proof.
  destruct v as [j | ]; simpl; [ | reflexivity ].
  destruct (to_primitive_throws j); reflexivity.
Qed.

Lemma run_member_pure (v : value) (k : string) (w : world) (s : state) :
  snd (run (member v k) w s) = s.
Proof. destruct v as [[ | | | | | | ] | ]; reflexivity. Qed.

Lemma run_getGeneration_printable (generationId : value) (w : world) (s : state) :
  printable generationId = true ->
  run (getGeneration generationId) w s
  = (match w (calls s) (status_request generationId) with
     | NetworkError => Raised FetchError
     | InvalidBody => Raised SyntaxError
     | Body data => Returned data
     end,
     record_fetch (status_request generationId)
                  (w (calls s) (status_request generationId)) s).
Proof.
  unfold getGeneration, printable, in_template, status_request.
  destruct generationId as [j | ]; simpl.
  - destruct (to_primitive_throws j); [ discriminate | ]. intros _. simpl.
    destruct (w (calls s) (GET_generation (Some j))); reflexivity.
  - intros _. destruct (w (calls s) (GET_generation None)); reflexivity.
Qed.

Lemma run_getGeneration_unprintable (generationId : value) (w : world) (s : state) :
  printable generationId = false ->
  run (getGeneration generationId) w s = (Raised TypeError, s).
Proof.
  unfold getGeneration, printable, in_template.
  destruct generationId as [j | ]; [ | discriminate ].
  destruct (to_primitive_throws j); [ reflexivity | discriminate ].
Qed.

Lemma run_generateVideo_returned (prompt : string) (w : world) (s : state)
      (data : json) (s' : state) :
  run (generateVideo prompt) w s = (Returned data, s') ->
  s' = record_fetch (POST luma_generations (generation_payload prompt)) (Body data) s.
Proof.
  unfold generateVideo. simpl.
  destruct (w (calls s) (POST luma_generations (generation_payload prompt)));
    simpl; intros H; try discriminate.
  injection H as <- <-. reflexivity.
Qed.

Lemma run_interpolateVideos_returned (id1 id2 : value) (prompt : string)
      (w : world) (s : state) (data : json) (s' : state) :
  run (interpolateVideos id1 id2 prompt) w s = (Returned data, s') ->
  s' = record_fetch (interpolation_request id1 id2 prompt) (Body data) s.
Proof.
  unfold interpolateVideos, interpolation_request. simpl.
  destruct (w (calls s) (POST luma_generations (interpolation_payload id1 id2 prompt)));
    simpl; intros H; try discriminate.
  injection H as <- <-. reflexivity.
Qed.

(** X1: [getGeneration] sends one status request for the id and returns
    the parsed body as it is; it passes on the error of a request that is
    not answered or of a body that is not JSON.  For an id that cannot be
    written into the URL it throws a [TypeError] and sends nothing. *)
Theorem getGeneration_outcomes (generationId : value) (w : world) (s : state) :
  let r := w (calls s) (status_request generationId) in
  (printable generationId = false ->
     run (getGeneration generationId) w s = (Raised TypeError, s))
  /\ (printable generationId = true ->
        snd (run (getGeneration generationId) w s)
        = record_fetch (status_request generationId) r s
        /\ (r = NetworkError ->
              fst (run (getGeneration generationId) w s) = Raised FetchError)
        /\ (r = InvalidBody ->
              fst (run (getGeneration generationId) w s) = Raised SyntaxError)
        /\ (forall data, r = Body data ->
              fst (run (getGeneration generationId) w s) = Returned data)).
Proof.
  cbv zeta. unfold getGeneration, printable, in_template, status_request. split.
  - destruct generationId as [j | ]; [ | discriminate ].
    destruct (to_primitive_throws j); [ reflexivity | discriminate ].
  - intros Hid.
    assert (Hrun : run (try_catch
                          (match generationId with
                           | Some j => if to_primitive_throws j then Throw TypeError else Ret tt
                           | None => Ret tt
                           end;; data <- fetch_json (GET_generation generationId);; Ret data)
                          (fun error => Throw error)) w s
                   = run (try_catch (data <- fetch_json (GET_generation generationId);; Ret data)
                                    (fun error => Throw error)) w s).
    { destruct generationId as [j | ]; [ | reflexivity ].
      destruct (to_primitive_throws j); [ discriminate | reflexivity ]. }
    rewrite Hrun. simpl.
    destruct (w (calls s) (GET_generation generationId)) as [ | | data]; simpl;
      repeat split; auto; try discriminate.
    intros data' H. injection H as ->. reflexivity.
Qed.

(** X2: [interpolateVideos] sends one request, whose two keyframes carry
    the two ids it was given, as [JSON.stringify] writes them: an
    undefined id leaves its keyframe without an [id], a null id is sent as
    null, and so is an id that is an infinite number; a string id is sent
    as it is.  The function returns the parsed body as it is, and passes
    on the error of a request that is not answered or of a body that is
    not JSON. *)
Theorem interpolateVideos_outcomes
        (videoId1 videoId2 : value) (prompt : string) (w : world) (s : state) :
  let payload := interpolation_payload videoId1 videoId2 prompt in
  let r := w (calls s) (POST luma_generations payload) in
  snd (run (interpolateVideos videoId1 videoId2 prompt) w s)
  = record_fetch (POST luma_generations payload) r s
  /\ keyframe_id payload "frame0" = sent_id videoId1
  /\ keyframe_id payload "frame1" = sent_id videoId2
  /\ sent_id undefined = undefined
  /\ sent_id null = null
  /\ (forall negative, sent_id (Some (JInfinity negative)) = null)
  /\ (forall name, sent_id (Some (JStr name)) = Some (JStr name))
  /\ get_property payload "prompt" = Some (JStr prompt)
  /\ (r = NetworkError ->
        fst (run (interpolateVideos videoId1 videoId2 prompt) w s) = Raised FetchError)
  /\ (r = InvalidBody ->
        fst (run (interpolateVideos videoId1 videoId2 prompt) w s) = Raised SyntaxError)
  /\ (forall data, r = Body data ->
        fst (run (interpolateVideos videoId1 videoId2 prompt) w s) = Returned data).
Proof.
  cbv zeta. unfold interpolateVideos. simpl.
  destruct (w (calls s) (POST luma_generations (interpolation_payload videoId1 videoId2 prompt)))
    as [ | | data]; simpl.
  all: split; [ reflexivity | ].
  all: split; [ destruct videoId1; reflexivity | ].
  all: split; [ destruct videoId2; reflexivity | ].
  all: repeat split; auto; try discriminate.
  intros data' H. injection H as ->. reflexivity.
Qed.

(** X3: with an array of choices whose first element has a string [text],
    [generatePromptForLuma] returns that text without the white space at
    its ends. *)
Theorem generatePrompt_returns_trimmed_text
        (basePrompt : string) (w : world) (s : state)
        (data first : json) (others : list json) (text : string) :
  w (calls s) (completion_request basePrompt) = Body data ->
  get_property data "choices" = Some (JArr (first :: others)) ->
  get_property first "text" = Some (JStr text) ->
  run (generatePromptForLuma basePrompt) w s
  = (Returned (trim text),
     record_fetch (completion_request basePrompt) (Body data) s).
Proof.
  intros Hw Hchoices Htext.
  unfold generatePromptForLuma, completion_request in *.
  cbn [fetch_json bind try_catch run]. rewrite Hw. cbn [bind try_catch].
  assert (Hdata : data <> JNull) by (intros ->; discriminate Hchoices).
  assert (Hfirst : first <> JNull) by (intros ->; discriminate Htext).
  destruct data; try contradiction; simpl in Hchoices |- *; try discriminate;
    rewrite ?Hchoices; simpl.
  all: try (destruct (s0 =? "length"); [ discriminate | ];
            destruct (array_index "choices"); discriminate).
  all: try (destruct first; try contradiction; simpl in Htext |- *; try discriminate;
            rewrite ?Htext; reflexivity).
Qed.

(** ** The polling loop, whatever the answers *)

Lemma poll_skips_pending (pending : nat) :
  forall (fuel : nat) (generationId : value) (interval : Z) (w : world) (s : state)
         (reports : nat -> json) (first : nat),
    printable generationId = true ->
    (forall k, (k < pending)%nat ->
       w (calls s + k)%nat (status_request generationId) = Body (reports (first + k)%nat)
       /\ reports_status (reports (first + k)%nat) = true
       /\ is_completed (reports (first + k)%nat) = false) ->
    run (pollGeneration (pending + fuel) generationId interval) w s
    = run (pollGeneration fuel generationId interval) w
          {| currentVideo := currentVideo s; currentPrompt := currentPrompt s;
             calls := (calls s + pending)%nat;
             log := log s ++ pending_events generationId interval reports first pending |}.
Proof.
  induction pending as [ | pending IH];
    intros fuel generationId interval w s reports first Hid Hpend.
  - simpl. rewrite Nat.add_0_r, app_nil_r. destruct s; reflexivity.
  - destruct (Hpend 0%nat ltac:(lia)) as (Hw & Hst & Hnot).
    rewrite !Nat.add_0_r in *.
    change (S pending + fuel)%nat with (S (pending + fuel)).
    rewrite (poll_iteration (pending + fuel) generationId interval w s (reports first) Hid Hw Hst).
    cbv zeta. rewrite Hnot.
    rewrite (IH fuel generationId interval w _ reports (S first) Hid).
    + simpl. rewrite <- !app_assoc. simpl.
      replace (S (calls s + pending))%nat with (calls s + S pending)%nat by lia.
      reflexivity.
    + intros k Hk. simpl. specialize (Hpend (S k) ltac:(lia)).
      replace (calls s + S k)%nat with (S (calls s + k)) in Hpend by lia.
      replace (first + S k)%nat with (S (first + k)) in Hpend by lia. exact Hpend.
Qed.

Lemma poll_ends_at_once (fuel : nat) (generationId : value) (interval : Z)
      (w : world) (s : state) (e : exn) :
  printable generationId = true ->
  answer_error (w (calls s) (status_request generationId)) = Some e ->
  run (pollGeneration (S fuel) generationId interval) w s
  = (Raised e,
     record_fetch (status_request generationId)
                  (w (calls s) (status_request generationId)) s).
Proof.
  intros Hid Herr. cbn [pollGeneration].
  rewrite run_bind, (run_getGeneration_printable generationId w s Hid).
  destruct (w (calls s) (status_request generationId)) as [ | | generation]; simpl in Herr.
  - injection Herr as <-. reflexivity.
  - injection Herr as <-. reflexivity.
  - rewrite run_bind, (run_in_template _ w _ Hid).
    destruct (reports_status generation) eqn:Hst; [ discriminate | ].
    injection Herr as <-. rewrite run_bind.
    destruct generation; simpl in Hst |- *; try discriminate; try reflexivity.
    all: unfold printable in Hst;
      match goal with
      | |- context [in_template ?v] => destruct v as [j | ] eqn:Hv; [ | discriminate ]
      end; simpl; destruct (to_primitive_throws j); [ reflexivity | discriminate ].
Qed.

Lemma count_fetches_app (l l' : list event) :
  count_fetches (l ++ l') = (count_fetches l + count_fetches l')%nat.
Proof.
  induction l as [ | [req r | ms] l IH]; simpl; auto.
Qed.

Lemma sleeps_app (l l' : list event) : sleeps (l ++ l') = (sleeps l ++ sleeps l')%list.
Proof.
  induction l as [ | [req r | ms] l IH]; simpl; auto. rewrite IH. reflexivity.
Qed.

(** X4: how [pollGeneration] ends when a status request goes wrong.  After
    any number of answers that are not completed, a request that is not
    answered, a body that is not JSON, or an answer that is null or whose
    status cannot be printed ends the loop with the corresponding
    exception, right after that request and without a further sleep. *)
Theorem pollGeneration_passes_errors_on
        (pending fuel : nat) (generationId : value) (interval : Z) (w : world) (s : state)
        (reports : nat -> json) (e : exn) :
  printable generationId = true ->
  (forall k, (k < pending)%nat ->
     w (calls s + k)%nat (status_request generationId) = Body (reports k)
     /\ reports_status (reports k) = true
     /\ is_completed (reports k) = false) ->
  answer_error (w (calls s + pending)%nat (status_request generationId)) = Some e ->
  (pending < fuel)%nat ->
  exists s' events,
    run (pollGeneration fuel generationId interval) w s = (Raised e, s')
    /\ log s' = (log s ++ events)%list
    /\ count_fetches events = S pending
    /\ sleeps events = repeat interval pending
    /\ currentVideo s' = currentVideo s
    /\ currentPrompt s' = currentPrompt s.
Proof.
  intros Hid Hpend Herr Hfuel.
  replace fuel with (pending + S (fuel - S pending))%nat by lia.
  rewrite (poll_skips_pending pending (S (fuel - S pending)) generationId interval w s
             reports 0%nat Hid Hpend).
  rewrite poll_ends_at_once with (e := e); auto.
  destruct (pending_events_counts generationId interval reports 0 pending) as [Hf Hs].
  eexists; eexists. split; [ reflexivity | ]. simpl.
  split; [ rewrite <- app_assoc; reflexivity | ].
  split; [ | split; [ | split; reflexivity ] ].
  - rewrite count_fetches_app, Hf. simpl. lia.
  - rewrite sleeps_app, Hs. simpl. apply app_nil_r.
Qed.

Lemma run_getGeneration_returned (generationId : value) (w : world) (s : state)
      (generation : json) (s' : state) :
  run (getGeneration generationId) w s = (Returned generation, s') ->
  s' = record_fetch (status_request generationId) (Body generation) s.
Proof.
  intros Hrun. destruct (printable generationId) eqn:Hid.
  - rewrite (run_getGeneration_printable generationId w s Hid) in Hrun.
    destruct (w (calls s) (status_request generationId)) as [ | | data];
      try discriminate.
    injection Hrun as <- <-. reflexivity.
  - rewrite (run_getGeneration_unprintable generationId w s Hid) in Hrun. discriminate.
Qed.

(** The log of a [pollGeneration] that returns: status requests for the
    id and sleeps, and at the end the request whose answer is returned. *)
Lemma poll_returned_log (fuel : nat) :
  forall (generationId : value) (interval : Z) (w : world) (s : state)
         (generation : json) (s' : state),
    run (pollGeneration fuel generationId interval) w s = (Returned generation, s') ->
    exists events,
      status_traffic generationId events
      /\ log s' = (log s ++ events
                   ++ [Fetched (status_request generationId) (Body generation)])%list.
Proof.
  induction fuel as [ | fuel IH]; intros generationId interval w s generation s' Hrun.
  - discriminate Hrun.
  - cbn [pollGeneration] in Hrun. rewrite run_bind in Hrun.
    destruct (run (getGeneration generationId) w s) as [[g | e | ] s1] eqn:Hget;
      try discriminate.
    apply run_getGeneration_returned in Hget. subst s1.
    rewrite run_bind in Hrun.
    pose proof (run_in_template_pure generationId w
                  (record_fetch (status_request generationId) (Body g) s)) as Hp1.
    destruct (run (in_template generationId) w _) as [[[] | e | ] s2]; try discriminate.
    simpl in Hp1. subst s2. rewrite run_bind in Hrun.
    pose proof (run_member_pure (Some g) "status" w
                  (record_fetch (status_request generationId) (Body g) s)) as Hp2.
    destruct (run (member (Some g) "status") w _) as [[st | e | ] s3] eqn:Hst;
      try discriminate.
    simpl in Hp2. subst s3.
    apply run_member_returned in Hst. destruct Hst as [-> _].
    rewrite run_bind in Hrun.
    pose proof (run_in_template_pure (get_property g "status") w
                  (record_fetch (status_request generationId) (Body g) s)) as Hp3.
    destruct (run (in_template (get_property g "status")) w _) as [[[] | e | ] s4];
      try discriminate.
    simpl in Hp3. subst s4.
    destruct (strict_eq_string (get_property g "status") "completed") eqn:Hdone.
    + simpl in Hrun. injection Hrun as <- <-.
      exists []. split; [ constructor | reflexivity ].
    + cbn [run] in Hrun. apply IH in Hrun.
      destruct Hrun as (events & Htraffic & Hlog).
      exists (Fetched (status_request generationId) (Body g) :: Slept interval :: events).
      split.
      * constructor; [ reflexivity | constructor; [ exact I | exact Htraffic ] ].
      * rewrite Hlog. simpl. rewrite <- !app_assoc. reflexivity.
Qed.

(** X5: what [pollGeneration] returns, whatever the service answers: a
    generation whose status is the string "completed", which is the body
    of the last request it sent; the two variables are as before. *)
Theorem pollGeneration_returns_last_answer (fuel : nat) :
  forall (generationId : value) (interval : Z) (w : world) (s : state)
         (generation : json) (s' : state),
    run (pollGeneration fuel generationId interval) w s = (Returned generation, s') ->
    get_property generation "status" = Some (JStr "completed")
    /\ (exists events,
          log s' = (log s ++ events
                    ++ [Fetched (status_request generationId) (Body generation)])%list)
    /\ currentVideo s' = currentVideo s
    /\ currentPrompt s' = currentPrompt s.
Proof.
  induction fuel as [ | fuel IH]; intros generationId interval w s generation s' Hrun.
  - discriminate Hrun.
  - cbn [pollGeneration] in Hrun. rewrite run_bind in Hrun.
    destruct (run (getGeneration generationId) w s) as [[g | e | ] s1] eqn:Hget;
      try discriminate.
    apply run_getGeneration_returned in Hget. subst s1.
    rewrite run_bind in Hrun.
    pose proof (run_in_template_pure generationId w
                  (record_fetch (status_request generationId) (Body g) s)) as Hp1.
    destruct (run (in_template generationId) w _) as [[[] | e | ] s2]; try discriminate.
    simpl in Hp1. subst s2. rewrite run_bind in Hrun.
    pose proof (run_member_pure (Some g) "status" w
                  (record_fetch (status_request generationId) (Body g) s)) as Hp2.
    destruct (run (member (Some g) "status") w _) as [[st | e | ] s3] eqn:Hst;
      try discriminate.
    simpl in Hp2. subst s3.
    apply run_member_returned in Hst. destruct Hst as [-> _].
    rewrite run_bind in Hrun.
    pose proof (run_in_template_pure (get_property g "status") w
                  (record_fetch (status_request generationId) (Body g) s)) as Hp3.
    destruct (run (in_template (get_property g "status")) w _) as [[[] | e | ] s4];
      try discriminate.
    simpl in Hp3. subst s4.
    destruct (strict_eq_string (get_property g "status") "completed") eqn:Hdone.
    + simpl in Hrun. injection Hrun as <- <-. split; [ | split; [ | split; reflexivity ] ].
      * unfold strict_eq_string in Hdone.
        destruct (get_property g "status") as [[ | | | | st | | ] | ]; try discriminate.
        apply String.eqb_eq in Hdone. subst st. reflexivity.
      * exists []. reflexivity.
    + cbn [run] in Hrun. apply IH in Hrun.
      destruct Hrun as (Hstatus & (events & Hlog) & Hv & Hp).
      split; [ exact Hstatus | split; [ | split; [ exact Hv | exact Hp ] ] ].
      exists (Fetched (status_request generationId) (Body g) :: Slept interval :: events).
      rewrite Hlog. simpl. rewrite <- !app_assoc. reflexivity.
Qed.

(** ** What the background functions commit *)

(** X6: the gateway functions and the polling loop never assign
    [currentVideo] or [currentPrompt], however they end. *)
Theorem gateway_and_poller_keep_variables (w : world) (s : state) :
  (forall basePrompt,
     currentVideo (snd (run (generatePromptForLuma basePrompt) w s)) = currentVideo s
     /\ currentPrompt (snd (run (generatePromptForLuma basePrompt) w s)) = currentPrompt s)
  /\ (forall prompt,
        currentVideo (snd (run (generateVideo prompt) w s)) = currentVideo s
        /\ currentPrompt (snd (run (generateVideo prompt) w s)) = currentPrompt s)
  /\ (forall generationId,
        currentVideo (snd (run (getGeneration generationId) w s)) = currentVideo s
        /\ currentPrompt (snd (run (getGeneration generationId) w s)) = currentPrompt s)
  /\ (forall fuel generationId interval,
        currentVideo (snd (run (pollGeneration fuel generationId interval) w s))
        = currentVideo s
        /\ currentPrompt (snd (run (pollGeneration fuel generationId interval) w s))
           = currentPrompt s)
  /\ (forall videoId1 videoId2 prompt,
        currentVideo (snd (run (interpolateVideos videoId1 videoId2 prompt) w s))
        = currentVideo s
        /\ currentPrompt (snd (run (interpolateVideos videoId1 videoId2 prompt) w s))
           = currentPrompt s).
Proof.
  repeat split.
  - apply (run_keeps_video false), generatePrompt_assigns_nothing.
  - apply run_keeps_prompt, generatePrompt_assigns_nothing.
  - apply (run_keeps_video false), generateVideo_assigns_nothing.
  - apply run_keeps_prompt, generateVideo_assigns_nothing.
  - apply (run_keeps_video false), getGeneration_assigns_nothing.
  - apply run_keeps_prompt, getGeneration_assigns_nothing.
  - apply (run_keeps_video false), pollGeneration_assigns_nothing.
  - apply run_keeps_prompt, pollGeneration_assigns_nothing.
  - apply (run_keeps_video false), interpolateVideos_assigns_nothing.
  - apply run_keeps_prompt, interpolateVideos_assigns_nothing.
Qed.

Lemma run_generatePrompt_returns (basePrompt : string) (w : world) (s : state) :
  exists prompt,
    run (generatePromptForLuma basePrompt) w s
    = (Returned prompt,
       record_fetch (completion_request basePrompt)
                    (w (calls s) (completion_request basePrompt)) s).
Proof.
  destruct (generatePrompt_cases basePrompt w s) as (prompt & Hrun & _). eauto.
Qed.

(** X7: what a call of [initializeBackground] that succeeds leaves, when
    no other task runs in between.  Its requests are, in this order, the
    completion request for the previous [currentPrompt], the creation of a
    generation for the prompt made of it, and status requests for the [id]
    of the answer to that creation, with sleeps in between.
    [currentPrompt] is the generated prompt; [currentVideo] holds that
    [id] and the [video_url] of the last status answer, whose status is
    "completed".  The endpoint then answers with that URL, as
    [JSON.stringify] writes it, if it is truthy; when the completed answer
    has no [video_url], a successful start still leaves the endpoint at
    503. *)
Theorem initialize_success_commits (fuel : nat) (w : world) (s0 s : state) :
  run (initializeBackground_try fuel) w s0 = (Returned tt, s) ->
  exists prompt genResponse generation events,
    fst (run (generatePromptForLuma (currentPrompt s0)) w s0) = Returned prompt
    /\ log s
       = (log s0
          ++ Fetched (completion_request (currentPrompt s0))
                     (w (calls s0) (completion_request (currentPrompt s0)))
          :: Fetched (POST luma_generations (generation_payload prompt)) (Body genResponse)
          :: events
          ++ [Fetched (status_request (get_property genResponse "id")) (Body generation)])%list
    /\ status_traffic (get_property genResponse "id") events
    /\ currentPrompt s = prompt
    /\ currentVideo s = {| id := get_property genResponse "id";
                           video_url := get_property generation "video_url" |}
    /\ get_property generation "status" = Some (JStr "completed")
    /\ (get_property generation "video_url" = None -> current s = not_ready)
    /\ (forall url, get_property generation "video_url" = Some url ->
                    truthy (Some url) = true ->
                    current s = {| status := 200;
                                   content := JObj [("video_url", serialise url)] |}).
Proof.
  unfold initializeBackground_try. intros H.
  rewrite run_bind in H. cbn [run] in H. rewrite run_bind in H.
  destruct (run_generatePrompt_returns (currentPrompt s0) w s0) as [prompt Hprompt].
  rewrite Hprompt in H.
  rewrite run_bind in H. cbn [run] in H. rewrite run_bind in H. cbn [run] in H.
  rewrite run_bind in H.
  set (s1 := set_prompt prompt _) in H.
  destruct (run (generateVideo (currentPrompt s1)) w s1)
    as [[genResponse | e | ] s2] eqn:Hvideo; try discriminate.
  apply run_generateVideo_returned in Hvideo.
  rewrite run_bind in H.
  destruct (run (member (Some genResponse) "id") w s2) as [[genId | e | ] s3] eqn:Hid;
    try discriminate.
  apply run_member_returned in Hid. destruct Hid as [-> ->].
  rewrite run_bind in H.
  destruct (run (pollGeneration fuel (get_property genResponse "id") default_interval) w s2)
    as [[generation | e | ] s4] eqn:Hpoll; try discriminate.
  pose proof (poll_returned_completed _ _ _ _ _ _ _ Hpoll) as Hdone.
  pose proof (run_keeps_prompt _ _ w s2
                (pollGeneration_assigns_nothing false fuel
                   (get_property genResponse "id") default_interval)) as Hp4.
  rewrite Hpoll in Hp4. cbn [snd] in Hp4.
  apply poll_returned_log in Hpoll. destruct Hpoll as (events & Htraffic & Hlog4).
  rewrite run_bind in H.
  destruct (run (member (Some generation) "video_url") w s4) as [[url | e | ] s5] eqn:Hurl;
    try discriminate.
  apply run_member_returned in Hurl. destruct Hurl as [-> ->].
  cbn [run] in H. injection H as <-.
  exists prompt, genResponse, generation, events.
  split; [ rewrite Hprompt; reflexivity | ].
  split.
  { cbn [log set_video]. rewrite Hlog4, Hvideo. subst s1. simpl.
    rewrite <- !app_assoc. reflexivity. }
  split; [ exact Htraffic | ].
  split; [ cbn [currentPrompt set_video]; rewrite Hp4, Hvideo; reflexivity | ].
  split; [ reflexivity | ].
  split.
  { unfold is_completed, strict_eq_string in Hdone.
    destruct (get_property generation "status") as [[ | | | | st | | ] | ]; try discriminate.
    apply String.eqb_eq in Hdone. subst st. reflexivity. }
  split.
  - intros Hnone. unfold current, current_video.
    cbn [currentVideo set_video video_url]. rewrite Hnone. reflexivity.
  - intros url Hsome Htruthy. unfold current, current_video.
    cbn [currentVideo set_video video_url]. rewrite Hsome, Htruthy. reflexivity.
Qed.

(** X8: what a call of [updateBackground] that succeeds leaves, when no
    other task runs in between.  Its requests are, in this order, the
    completion request for the previous [currentPrompt], the creation of a
    generation for the prompt made of it, status requests for the [id] of
    the answer to that creation up to a completed one, an interpolation
    whose second keyframe is that [id], and status requests for the [id]
    of the answer to the interpolation.  [currentPrompt] is the generated
    prompt; [currentVideo] holds the [id] of the interpolation and the
    [video_url] of the last status answer, whose status is "completed". *)
Theorem update_success_commits (fuel : nat) (w : world) (s s' : state) :
  run (updateBackground_try fuel) w s = (Returned tt, s') ->
  exists newPrompt newGenResponse newGeneration first interpResponse interpolated
         events events',
    fst (run (generatePromptForLuma (currentPrompt s)) w s) = Returned newPrompt
    /\ log s'
       = (log s
          ++ Fetched (completion_request (currentPrompt s))
                     (w (calls s) (completion_request (currentPrompt s)))
          :: Fetched (POST luma_generations (generation_payload newPrompt))
                     (Body newGenResponse)
          :: events
          ++ Fetched (status_request (get_property newGenResponse "id")) (Body newGeneration)
          :: Fetched (interpolation_request first (get_property newGenResponse "id")
                                            interpolation_prompt)
                     (Body interpResponse)
          :: events'
          ++ [Fetched (status_request (get_property interpResponse "id"))
                      (Body interpolated)])%list
    /\ status_traffic (get_property newGenResponse "id") events
    /\ status_traffic (get_property interpResponse "id") events'
    /\ get_property newGeneration "status" = Some (JStr "completed")
    /\ keyframe_id (interpolation_payload first (get_property newGenResponse "id")
                                          interpolation_prompt) "frame1"
       = sent_id (get_property newGenResponse "id")
    /\ currentPrompt s' = newPrompt
    /\ currentVideo s' = {| id := get_property interpResponse "id";
                            video_url := get_property interpolated "video_url" |}
    /\ get_property interpolated "status" = Some (JStr "completed").
Proof.
  assert (Hcompleted : forall g, is_completed g = true ->
                                 get_property g "status" = Some (JStr "completed")).
  { intros g Hdone. unfold is_completed, strict_eq_string in Hdone.
    destruct (get_property g "status") as [[ | | | | st | | ] | ]; try discriminate.
    apply String.eqb_eq in Hdone. subst st. reflexivity. }
  unfold updateBackground_try. intros H.
  rewrite run_bind in H. cbn [run] in H. rewrite run_bind in H.
  destruct (run_generatePrompt_returns (currentPrompt s) w s) as [newPrompt Hprompt].
  rewrite Hprompt in H. rewrite run_bind in H.
  set (s1 := record_fetch _ _ s) in H.
  destruct (run (generateVideo newPrompt) w s1) as [[newGenResponse | e | ] s2] eqn:Hvideo;
    try discriminate.
  apply run_generateVideo_returned in Hvideo.
  rewrite run_bind in H.
  destruct (run (member (Some newGenResponse) "id") w s2) as [[newGenId | e | ] s3] eqn:Hid;
    try discriminate.
  apply run_member_returned in Hid. destruct Hid as [-> ->].
  rewrite run_bind in H.
  destruct (run (pollGeneration fuel (get_property newGenResponse "id") default_interval) w s2)
    as [[newGeneration | e | ] s3] eqn:Hpoll; try discriminate.
  pose proof (poll_returned_completed _ _ _ _ _ _ _ Hpoll) as Hdone.
  apply poll_returned_log in Hpoll. destruct Hpoll as (events & Htraffic & Hlog3).
  rewrite run_bind in H.
  destruct (run (member (Some newGeneration) "video_url") w s3) as [[u | e | ] s4] eqn:Hu;
    try discriminate.
  apply run_member_returned in Hu. destruct Hu as [_ ->].
  rewrite run_bind in H. cbn [run] in H. rewrite run_bind in H.
  destruct (run (interpolateVideos (id (currentVideo s3)) (get_property newGenResponse "id")
                   interpolation_prompt) w s3) as [[interpResponse | e | ] s5] eqn:Hinterp;
    try discriminate.
  apply run_interpolateVideos_returned in Hinterp.
  rewrite run_bind in H.
  destruct (run (member (Some interpResponse) "id") w s5) as [[interpGenId | e | ] s6]
    eqn:Hiid; try discriminate.
  apply run_member_returned in Hiid. destruct Hiid as [-> ->].
  rewrite run_bind in H.
  destruct (run (pollGeneration fuel (get_property interpResponse "id") default_interval) w s5)
    as [[interpolated | e | ] s6] eqn:Hpoll'; try discriminate.
  pose proof (poll_returned_completed _ _ _ _ _ _ _ Hpoll') as Hdone'.
  apply poll_returned_log in Hpoll'. destruct Hpoll' as (events' & Htraffic' & Hlog6).
  rewrite run_bind in H.
  destruct (run (member (Some interpolated) "video_url") w s6) as [[url | e | ] s7] eqn:Hurl;
    try discriminate.
  apply run_member_returned in Hurl. destruct Hurl as [-> ->].
  cbn [bind run] in H. injection H as <-.
  exists newPrompt, newGenResponse, newGeneration, (id (currentVideo s3)),
         interpResponse, interpolated, events, events'.
  split; [ rewrite Hprompt; reflexivity | ].
  split.
  { cbn [log set_video set_prompt]. rewrite Hlog6, Hinterp. cbn [log record_fetch].
    rewrite Hlog3, Hvideo. subst s1. cbn [log record_fetch].
    rewrite <- !app_assoc. reflexivity. }
  split; [ exact Htraffic | split; [ exact Htraffic' | ] ].
  split; [ apply Hcompleted, Hdone | ].
  split; [ exact (proj1 (proj2 (interpolation_payload_ids _ _ _))) | ].
  split; [ reflexivity | split; [ reflexivity | apply Hcompleted, Hdone' ] ].
Qed.

(** X9: on the event loop, a refresh cycle that starts while no other task
    is in flight and is the only task resumed comes, once the new
    generation is created and polled to completion, to wait for the
    answer to one request: the interpolation from the [currentVideo.id]
    the cycle was started at to the [id] of the new generation, both as
    [JSON.stringify] writes them.  Until then the two variables are as
    the cycle found them. *)
Theorem lone_cycle_interpolates_from_committed_video
        (fuel : nat) (w : world) (s : state)
        (newPrompt : string) (s1 : state) (newGenResponse : json) (s2 : state)
        (newGeneration : json) (s3 : state) :
  run (generatePromptForLuma (currentPrompt s)) w s = (Returned newPrompt, s1) ->
  run (generateVideo newPrompt) w s1 = (Returned newGenResponse, s2) ->
  newGenResponse <> JNull ->
  run (pollGeneration fuel (get_property newGenResponse "id") default_interval) w s2
    = (Returned newGeneration, s3) ->
  let newGenId := get_property newGenResponse "id" in
  let req := interpolation_request (id (currentVideo s)) newGenId interpolation_prompt in
  (exists k,
      turns fuel (idle s)
            (Tick :: solo_inputs (generatePromptForLuma (currentPrompt s)) w s
                  ++ solo_inputs (generateVideo newPrompt) w s1
                  ++ solo_inputs (pollGeneration fuel newGenId default_interval) w s2)
      = {| video_now := currentVideo s; prompt_now := currentPrompt s;
           inflight := [{| kind := RefreshCycle; rest := Fetch req k |}] |})
  /\ is_interpolation req = true
  /\ first_keyframe_id req = sent_id (id (currentVideo s))
  /\ keyframe_id (interpolation_payload (id (currentVideo s)) newGenId interpolation_prompt)
                 "frame1" = sent_id newGenId.
Proof.
  intros Hprompt Hvideo Hresp Hpoll. cbv zeta.
  split; [ exact (solo_cycle_reaches_interpolation fuel w s newPrompt s1 newGenResponse s2
                    newGeneration s3 Hprompt Hvideo Hresp Hpoll) | ].
  split; [ reflexivity | ].
  split; [ exact (proj1 (interpolation_payload_ids _ _ _))
         | exact (proj1 (proj2 (interpolation_payload_ids _ _ _))) ].
Qed.

Lemma run_try_catch_state (p : prog unit) (w : world) (s : state) :
  snd (run (try_catch p (fun _ => Ret tt)) w s) = snd (run p w s).
Proof.
  rewrite run_try_catch. destruct (run p w s) as [[[] | e | ] s']; reflexivity.
Qed.

Lemma prompt_kept_bind (A B : Type) (p : prog A) (f : A -> prog B) :
  (forall w s, currentPrompt (snd (run p w s)) = currentPrompt s) ->
  (forall a w s, currentPrompt (snd (run (f a) w s)) = currentPrompt s) ->
  forall w s, currentPrompt (snd (run (bind p f) w s)) = currentPrompt s.
Proof.
  intros Hp Hf w s. rewrite run_bind. specialize (Hp w s).
  destruct (run p w s) as [[a | e | ] s1]; simpl in Hp |- *; auto.
  rewrite Hf. exact Hp.
Qed.

(** X10: [initializeBackground] stores the generated prompt before it
    creates the video.  However the later steps end, in success, in an
    error or still polling, [currentPrompt] is afterwards the prompt that
    [generatePromptForLuma] made of the previous one. *)
Theorem initialize_stores_generated_prompt (fuel : nat) (w : world) (s : state) :
  exists prompt,
    fst (run (generatePromptForLuma (currentPrompt s)) w s) = Returned prompt
    /\ currentPrompt (snd (run (initializeBackground fuel) w s)) = prompt.
Proof.
  destruct (run_generatePrompt_returns (currentPrompt s) w s) as [prompt Hprompt].
  exists prompt. split; [ rewrite Hprompt; reflexivity | ].
  unfold initializeBackground. rewrite run_try_catch_state.
  unfold initializeBackground_try.
  rewrite run_bind. cbn [run]. rewrite run_bind, Hprompt.
  rewrite run_bind. cbn [run]. rewrite run_bind. cbn [run].
  set (s1 := set_prompt prompt _).
  transitivity (currentPrompt s1); [ | reflexivity ].
  generalize s1. clear. intros s1.
  apply prompt_kept_bind; [ intros; apply run_keeps_prompt, generateVideo_assigns_nothing | ].
  intros genResponse.
  apply prompt_kept_bind; [ intros; apply run_keeps_prompt, member_assigns_nothing | ].
  intros genId.
  apply prompt_kept_bind;
    [ intros; apply run_keeps_prompt, pollGeneration_assigns_nothing | ].
  intros generation.
  apply prompt_kept_bind; [ intros; apply run_keeps_prompt, member_assigns_nothing | ].
  intros url w' s'. reflexivity.
Qed.

(** X11: the id of a created generation is used as it is read.  After
    [generateVideo] has returned a response, [initializeBackground] ends
    at once if the response is null; otherwise its next request is the
    status request for whatever [genResponse.id] is, and for a response
    without an [id] that is the generation "undefined". *)
Theorem initialize_polls_the_id_it_reads
        (fuel : nat) (w : world) (s : state)
        (prompt : string) (s1 : state) (genResponse : json) (s2 : state) :
  run (generatePromptForLuma (currentPrompt s)) w s = (Returned prompt, s1) ->
  run (generateVideo prompt) w (set_prompt prompt s1) = (Returned genResponse, s2) ->
  let s' := snd (run (initializeBackground (S fuel)) w s) in
  let genId := get_property genResponse "id" in
  (genResponse = JNull -> s' = s2)
  /\ (genResponse <> JNull -> printable genId = true ->
      nth_error (log s') (List.length (log s2))
      = Some (Fetched (status_request genId) (w (calls s2) (status_request genId))))
  /\ (genResponse <> JNull -> genId = None ->
      nth_error (log s') (List.length (log s2))
      = Some (Fetched (GET_generation undefined) (w (calls s2) (GET_generation undefined)))).
Proof.
  intros Hprompt Hvideo. cbv zeta.
  assert (Hrun : snd (run (initializeBackground (S fuel)) w s)
                 = snd (run (genId <- member (Some genResponse) "id";;
                             generation <- pollGeneration (S fuel) genId default_interval;;
                             url <- member (Some generation) "video_url";;
                             SetVideo {| id := genId; video_url := url |} (Ret tt)) w s2)).
  { unfold initializeBackground. rewrite run_try_catch_state.
    unfold initializeBackground_try.
    rewrite run_bind. cbn [run]. rewrite run_bind, Hprompt.
    rewrite run_bind. cbn [run]. rewrite run_bind. cbn [run].
    cbn [set_prompt currentPrompt]. rewrite run_bind, Hvideo. reflexivity. }
  rewrite Hrun. clear Hrun.
  assert (Hpolls : genResponse <> JNull -> printable (get_property genResponse "id") = true ->
            nth_error
              (log (snd (run (genId <- member (Some genResponse) "id";;
                              generation <- pollGeneration (S fuel) genId default_interval;;
                              url <- member (Some generation) "video_url";;
                              SetVideo {| id := genId; video_url := url |} (Ret tt)) w s2)))
              (List.length (log s2))
            = Some (Fetched (status_request (get_property genResponse "id"))
                            (w (calls s2) (status_request (get_property genResponse "id"))))).
  { intros Hresp Hid.
    rewrite run_bind, (run_member _ _ _ _ Hresp). rewrite run_bind.
    cbn [pollGeneration]. rewrite run_bind.
    pose proof (f_equal snd (run_getGeneration_printable
                               (get_property genResponse "id") w s2 Hid)) as Hstate.
    cbn [snd] in Hstate.
    match goal with
    | |- nth_error (log (snd ?r)) _ = _ =>
        assert (Hext : exists events,
                   log (snd r)
                   = (log (snd (run (getGeneration (get_property genResponse "id")) w s2))
                      ++ events)%list)
    end.
    { destruct (run (getGeneration (get_property genResponse "id")) w s2)
        as [[g | e | ] s3]; simpl; try (exists []; rewrite app_nil_r; reflexivity).
      match goal with
      | |- exists events, log (snd (match ?r with _ => _ end)) = _ =>
          destruct r as [[g' | e | ] s4] eqn:Hrest
      end.
      - match goal with
        | |- exists events, log (snd (run ?p w s4)) = _ =>
            destruct (run_log_extends _ p w s4) as [ev2 Hev2]
        end.
        match type of Hrest with
        | run ?p w s3 = _ =>
            destruct (run_log_extends _ p w s3) as [ev1 Hev1]; rewrite Hrest in Hev1
        end.
        simpl in Hev1. rewrite Hev2, Hev1, <- app_assoc. eauto.
      - match type of Hrest with
        | run ?p w s3 = _ =>
            destruct (run_log_extends _ p w s3) as [ev1 Hev1]; rewrite Hrest in Hev1
        end.
        simpl in *. eauto.
      - match type of Hrest with
        | run ?p w s3 = _ =>
            destruct (run_log_extends _ p w s3) as [ev1 Hev1]; rewrite Hrest in Hev1
        end.
        simpl in *. eauto. }
    destruct Hext as [events ->]. rewrite Hstate. simpl.
    rewrite <- app_assoc, nth_error_app2 by lia. rewrite Nat.sub_diag. reflexivity. }
  split; [ | split ].
  - intros ->. reflexivity.
  - exact Hpolls.
  - intros Hresp Hnone. specialize (Hpolls Hresp). rewrite Hnone in Hpolls.
    apply Hpolls. reflexivity.
Qed.

(** X12: no exception leaves [updateBackground], and unless its [try]
    block runs to its end, also when it is still polling, both variables
    are as the cycle found them. *)
Theorem update_never_raises_nor_half_commits (fuel : nat) (w : world) (s : state) :
  (forall e, fst (run (updateBackground fuel) w s) <> Raised e)
  /\ (fst (run (updateBackground_try fuel) w s) <> Returned tt ->
      currentVideo (snd (run (updateBackground fuel) w s)) = currentVideo s
      /\ currentPrompt (snd (run (updateBackground fuel) w s)) = currentPrompt s).
Proof.
  split.
  - intros e. unfold updateBackground. rewrite run_try_catch.
    destruct (run (updateBackground_try fuel) w s) as [[[] | e' | ] s']; simpl; discriminate.
  - intros Hnot. unfold updateBackground. rewrite run_try_catch_state.
    pose proof (updateBackground_try_keeps_variables fuel w s) as Hkept.
    destruct (run (updateBackground_try fuel) w s) as [[[] | e | ] s']; simpl in *; auto.
    now elim Hnot.
Qed.

(** ** The pace of the requests *)

Lemma sleepless_sleeps_for (interval : Z) (A : Type) (p : prog A) :
  sleepless p -> sleeps_for interval p.
Proof.
  induction p; simpl; auto. contradiction.
Qed.

Lemma sleeps_for_bind (interval : Z) (A B : Type) (p : prog A) (f : A -> prog B) :
  sleeps_for interval p -> (forall a, sleeps_for interval (f a)) ->
  sleeps_for interval (bind p f).
Proof.
  intros Hp Hf. induction p; simpl in *; auto.
  destruct Hp. auto.
Qed.

Lemma sleeps_for_try_catch (interval : Z) (A : Type) (p : prog A) (h : exn -> prog A) :
  sleeps_for interval p -> (forall e, sleeps_for interval (h e)) ->
  sleeps_for interval (try_catch p h).
Proof.
  intros Hp Hh. induction p; simpl in *; auto.
  destruct Hp. auto.
Qed.

Lemma sleepless_bind (A B : Type) (p : prog A) (f : A -> prog B) :
  sleepless p -> (forall a, sleepless (f a)) -> sleepless (bind p f).
Proof.
  intros Hp Hf. induction p; simpl in *; auto.
Qed.

Lemma sleepless_try_catch (A : Type) (p : prog A) (h : exn -> prog A) :
  sleepless p -> (forall e, sleepless (h e)) -> sleepless (try_catch p h).
Proof.
  intros Hp Hh. induction p; simpl in *; auto.
Qed.

Lemma fetch_json_sleepless (req : request) : sleepless (fetch_json req).
Proof. intros [ | | data]; exact I. Qed.

Lemma member_sleepless (v : value) (k : string) : sleepless (member v k).
Proof. destruct v as [[ | | | | | | ] | ]; exact I. Qed.

Lemma in_template_sleepless (v : value) : sleepless (in_template v).
Proof.
  destruct v as [j | ]; simpl; [ | exact I ].
  destruct (to_primitive_throws j); exact I.
Qed.

Lemma call_trim_sleepless (v : value) : sleepless (call_trim v).
Proof. destruct v as [[ | | | | | | ] | ]; exact I. Qed.

Lemma gt_zero_sleepless (v : value) : sleepless (gt_zero v).
Proof.
  destruct v as [[ | | | | | | ] | ]; simpl; try exact I;
    match goal with |- context [if ?c then _ else _] => destruct c end; exact I.
Qed.

Lemma generatePrompt_sleepless (basePrompt : string) :
  sleepless (generatePromptForLuma basePrompt).
Proof.
  unfold generatePromptForLuma.
  apply sleepless_try_catch; [ | intros e; exact I ].
  apply sleepless_bind; [ apply fetch_json_sleepless | intros data ].
  apply sleepless_bind; [ apply member_sleepless | intros choices ].
  apply sleepless_bind.
  - destruct (truthy choices); [ | exact I ].
    apply sleepless_bind; [ apply member_sleepless | intros len; apply gt_zero_sleepless ].
  - intros [ | ]; [ | exact I ].
    apply sleepless_bind; [ apply member_sleepless | intros first ].
    apply sleepless_bind; [ apply member_sleepless | intros text; apply call_trim_sleepless ].
Qed.

Lemma generateVideo_sleepless (prompt : string) : sleepless (generateVideo prompt).
Proof.
  unfold generateVideo. apply sleepless_try_catch; [ | intros e; exact I ].
  apply sleepless_bind; [ apply fetch_json_sleepless | intros data; exact I ].
Qed.

Lemma getGeneration_sleepless (generationId : value) : sleepless (getGeneration generationId).
Proof.
  unfold getGeneration. apply sleepless_try_catch; [ | intros e; exact I ].
  apply sleepless_bind; [ apply in_template_sleepless | intros _ ].
  apply sleepless_bind; [ apply fetch_json_sleepless | intros data; exact I ].
Qed.

Lemma interpolateVideos_sleepless (id1 id2 : value) (prompt : string) :
  sleepless (interpolateVideos id1 id2 prompt).
Proof.
  unfold interpolateVideos. apply sleepless_try_catch; [ | intros e; exact I ].
  apply sleepless_bind; [ apply fetch_json_sleepless | intros data; exact I ].
Qed.

Lemma pollGeneration_sleeps_for (fuel : nat) (generationId : value) (interval : Z) :
  sleeps_for interval (pollGeneration fuel generationId interval).
Proof.
  induction fuel as [ | fuel IH]; cbn [pollGeneration]; [ exact I | ].
  apply sleeps_for_bind;
    [ apply sleepless_sleeps_for, getGeneration_sleepless | intros generation ].
  apply sleeps_for_bind;
    [ apply sleepless_sleeps_for, in_template_sleepless | intros _ ].
  apply sleeps_for_bind;
    [ apply sleepless_sleeps_for, member_sleepless | intros status ].
  apply sleeps_for_bind;
    [ apply sleepless_sleeps_for, in_template_sleepless | intros _ ].
  destruct (strict_eq_string status "completed"); simpl; auto.
Qed.

Lemma run_sleeps_for (interval : Z) (A : Type) (p : prog A) (w : world) (s : state) :
  sleeps_for interval p ->
  exists events,
    log (snd (run p w s)) = (log s ++ events)%list
    /\ Forall (fun ms => ms = interval) (sleeps events).
Proof.
  revert s. induction p as [a | e | | req k IH | ms k IH | k IH | v k IH | k IH | p0 k IH];
    intros s Hp; simpl in *;
    try (exists []; rewrite app_nil_r; split; [ reflexivity | constructor ]); eauto.
  - destruct (IH (w (calls s) req) (record_fetch req (w (calls s) req) s) (Hp _))
      as (events & Hev & Hall).
    exists (Fetched req (w (calls s) req) :: events). rewrite Hev. simpl.
    rewrite <- app_assoc. auto.
  - destruct Hp as [-> Hk].
    destruct (IH (record_sleep interval s) Hk) as (events & Hev & Hall).
    exists (Slept interval :: events). rewrite Hev. simpl.
    rewrite <- app_assoc. auto.
  - apply (IH (set_video v s) Hp).
  - apply (IH (set_prompt p0 s) Hp).
Qed.

Lemma initializeBackground_sleeps_for (fuel : nat) :
  sleeps_for default_interval (initializeBackground fuel).
Proof.
  unfold initializeBackground, initializeBackground_try.
  apply sleeps_for_try_catch; [ | intros e; exact I ].
  apply sleeps_for_bind; [ intros p; exact I | intros basePrompt ].
  apply sleeps_for_bind;
    [ apply sleepless_sleeps_for, generatePrompt_sleepless | intros prompt ].
  apply sleeps_for_bind; [ exact I | intros _ ].
  apply sleeps_for_bind; [ intros p; exact I | intros prompt' ].
  apply sleeps_for_bind;
    [ apply sleepless_sleeps_for, generateVideo_sleepless | intros genResponse ].
  apply sleeps_for_bind; [ apply sleepless_sleeps_for, member_sleepless | intros genId ].
  apply sleeps_for_bind; [ apply pollGeneration_sleeps_for | intros generation ].
  apply sleeps_for_bind; [ apply sleepless_sleeps_for, member_sleepless | intros url ].
  exact I.
Qed.

Lemma updateBackground_sleeps_for (fuel : nat) :
  sleeps_for default_interval (updateBackground fuel).
Proof.
  unfold updateBackground, updateBackground_try.
  apply sleeps_for_try_catch; [ | intros e; exact I ].
  apply sleeps_for_bind; [ intros p; exact I | intros basePrompt ].
  apply sleeps_for_bind;
    [ apply sleepless_sleeps_for, generatePrompt_sleepless | intros newPrompt ].
  apply sleeps_for_bind;
    [ apply sleepless_sleeps_for, generateVideo_sleepless | intros newGenResponse ].
  apply sleeps_for_bind; [ apply sleepless_sleeps_for, member_sleepless | intros newGenId ].
  apply sleeps_for_bind; [ apply pollGeneration_sleeps_for | intros newGeneration ].
  apply sleeps_for_bind; [ apply sleepless_sleeps_for, member_sleepless | intros _ ].
  apply sleeps_for_bind; [ intros v; exact I | intros current ].
  apply sleeps_for_bind;
    [ apply sleepless_sleeps_for, interpolateVideos_sleepless | intros interpResponse ].
  apply sleeps_for_bind; [ apply sleepless_sleeps_for, member_sleepless | intros interpGenId ].
  apply sleeps_for_bind; [ apply pollGeneration_sleeps_for | intros interpolated ].
  apply sleeps_for_bind; [ apply sleepless_sleeps_for, member_sleepless | intros url ].
  simpl. exact I.
Qed.

(** X14: the only waits between requests are those of the polling loop,
    at 5000 ms each.  In every run of [initializeBackground] and of
    [updateBackground], whatever the services answer and however the run
    ends, each sleep lasts 5000 ms. *)
Theorem background_sleeps_are_5000ms (fuel : nat) (w : world) (s : state) :
  (exists events,
     log (snd (run (initializeBackground fuel) w s)) = (log s ++ events)%list
     /\ Forall (fun ms => ms = 5000%Z) (sleeps events))
  /\ (exists events,
        log (snd (run (updateBackground fuel) w s)) = (log s ++ events)%list
        /\ Forall (fun ms => ms = 5000%Z) (sleeps events)).
Proof.
  split.
  - apply (run_sleeps_for default_interval), initializeBackground_sleeps_for.
  - apply (run_sleeps_for default_interval), updateBackground_sleeps_for.
Qed.

End Engine.

(** ** The properties at concrete inputs *)

(** C3 at a prompt service that cannot be reached. *)
Lemma generatePrompt_falls_back_when_unreachable :
  exists prompt s',
    run (generatePromptForLuma no_comparison "Ocean waves at sunset") unreachable initial_state
      = (Returned prompt, s')
    /\ prompt = "Ocean waves at sunset".
Proof.
  destruct (generatePrompt_never_raises no_comparison "Ocean waves at sunset"
              unreachable initial_state) as (prompt & Hrun & Hdown & _).
  exists prompt. eexists. split; [ exact Hrun | ].
  apply Hdown. reflexivity.
Defined.


(** C5 at a job that has failed: after fifty attempts the loop has not
    returned and goes on. *)
Lemma pollGeneration_waits_for_failed_job :
  exists s',
    run (pollGeneration 50 (Some (JStr "A")) default_interval) failed_job initial_state
      = (Running, s')
    /\ calls s' = 50%nat.
Proof.
  destruct (pollGeneration_returns_iff_completed
              (Some (JStr "A")) default_interval failed_job initial_state failed_job_reports
              eq_refl (fun k => eq_refl) (fun k => eq_refl))
    as (_ & _ & Hnever).
  destruct (Hnever (fun n => eq_refl) 50%nat) as (s' & Hrun & Hcalls & _).
  exists s'. split; [ exact Hrun | exact Hcalls ].
Defined.

(** C2 at the scenario: after the successful start, a cycle that finds the
    video service unreachable leaves the URL of job "A" in place. *)
Lemma failed_update_after_scenario_start :
  let after_initialize :=
    snd (run (initializeBackground no_comparison 1) scenario_world initial_state) in
  exists s',
    run (updateBackground no_comparison 1) unreachable after_initialize = (Returned tt, s')
    /\ currentVideo s' = currentVideo after_initialize
    /\ currentPrompt s' = currentPrompt after_initialize
    /\ current s' = video_ready (JStr "http://x/a.mp4").
Proof.
  intros after_initialize.
  destruct (failed_update_keeps_committed_state
              no_comparison 1 scenario_world initial_state after_initialize
              1 unreachable FetchError
              (snd (run (updateBackground_try no_comparison 1) unreachable after_initialize))
              eq_refl eq_refl)
    as (s' & Hrun & Hvideo & Hprompt & _ & _ & Hurl).
  exists s'.
  split; [ exact Hrun | split; [ exact Hvideo | split; [ exact Hprompt | ] ] ].
  apply Hurl; reflexivity.
Defined.

(** C9 at a start with every service unreachable. *)
Lemma not_ready_after_failed_start :
  exists s',
    run (initializeBackground no_comparison 1) unreachable initial_state = (Returned tt, s')
    /\ current s' = not_ready.
Proof.
  destruct (not_ready_before_first_commit no_comparison) as (_ & _ & _ & _ & Hfailed).
  apply (Hfailed 1%nat unreachable initial_state FetchError
           (snd (run (initializeBackground_try no_comparison 1) unreachable initial_state)));
    reflexivity.
Defined.

(** C10 at the scenario's services with nothing committed and no other task
    in flight: the cycle comes to ask for the interpolation from null to
    "A". *)
Lemma lone_cycle_interpolates_from_null :
  let s1 := snd (run (generatePromptForLuma no_comparison initial_prompt)
                     scenario_world initial_state) in
  let s2 := snd (run (generateVideo (initial_prompt ++ " with slight variation"))
                     scenario_world s1) in
  exists k,
    turns no_comparison 1 (idle initial_state)
          (Tick :: solo_inputs (generatePromptForLuma no_comparison initial_prompt)
                               scenario_world initial_state
                ++ solo_inputs (generateVideo (initial_prompt ++ " with slight variation"))
                               scenario_world s1
                ++ solo_inputs (pollGeneration 1 (Some (JStr "A")) default_interval)
                               scenario_world s2)
    = {| video_now := initial_video; prompt_now := initial_prompt;
         inflight :=
           [{| kind := RefreshCycle;
               rest := Fetch (interpolation_request null (Some (JStr "A"))
                                                    interpolation_prompt) k |}] |}.
Proof.
  cbv zeta.
  destruct (update_interpolates_from_current_video no_comparison 1) as (_ & Halone & _).
  destruct (Halone scenario_world initial_state
              (initial_prompt ++ " with slight variation")
              (snd (run (generatePromptForLuma no_comparison initial_prompt)
                        scenario_world initial_state))
              (JObj [("id", JStr "A")])
              (snd (run (generateVideo (initial_prompt ++ " with slight variation"))
                        scenario_world
                        (snd (run (generatePromptForLuma no_comparison initial_prompt)
                                  scenario_world initial_state))))
              (job_record "A" "completed" "http://x/a.mp4")
              (snd (run (pollGeneration 1 (Some (JStr "A")) default_interval)
                        scenario_world
                        (snd (run (generateVideo (initial_prompt ++ " with slight variation"))
                                  scenario_world
                                  (snd (run (generatePromptForLuma no_comparison
                                               initial_prompt)
                                            scenario_world initial_state))))))
              eq_refl eq_refl eq_refl ltac:(discriminate) eq_refl)
    as (k & Hk & _).
  exists k. exact Hk.
Defined.

(** C10 fails on the code: the timer starts the only refresh cycle while
    [initializeBackground] waits for the status of job "A" and
    [currentVideo.id] is still null; [initializeBackground] commits "A"
    while the cycle waits for its prompt, and the cycle asks for the
    interpolation from "A", not from null. *)
Lemma cycle_started_unset_interpolates_from_A :
  let unset := turns no_comparison 1 (boot no_comparison 1) start_creates_job in
  let srv := turns no_comparison 1 (turn no_comparison 1 unset Tick)
                   start_overtakes_cycle in
  id (video_now unset) = null
  /\ video_now srv = {| id := Some (JStr "A"); video_url := Some (JStr "http://x/a.mp4") |}
  /\ (exists t k,
        inflight srv = [t]
        /\ kind t = RefreshCycle
        /\ rest t = Fetch (interpolation_request (Some (JStr "A")) (Some (JStr "B"))
                                                 interpolation_prompt) k)
  /\ ~ unset_start_interpolates_from_null no_comparison 1.
Proof.
  cbv zeta.
  assert (Hsent : exists t k,
             inflight (turns no_comparison 1
                         (turn no_comparison 1
                               (turns no_comparison 1 (boot no_comparison 1)
                                      start_creates_job) Tick)
                         start_overtakes_cycle) = [t]
             /\ kind t = RefreshCycle
             /\ rest t = Fetch (interpolation_request (Some (JStr "A")) (Some (JStr "B"))
                                                      interpolation_prompt) k).
  { eexists. eexists. split; [ reflexivity | split; reflexivity ]. }
  split; [ reflexivity | split; [ reflexivity | split; [ exact Hsent | ] ] ].
  intros Hclaim. destruct Hsent as (t & k & Hin & Hkind & Hrest).
  assert (Hnull : keyframe_id (interpolation_payload (Some (JStr "A")) (Some (JStr "B"))
                                 interpolation_prompt) "frame0" = null).
  { apply (Hclaim start_creates_job start_overtakes_cycle)
      with (t := t) (url := luma_generations) (k := k).
    - unfold start_creates_job. repeat constructor; discriminate.
    - unfold start_overtakes_cycle. repeat constructor; discriminate.
    - reflexivity.
    - rewrite Hin. left. reflexivity.
    - exact Hkind.
    - exact Hrest.
    - discriminate. }
  discriminate Hnull.
Qed.

(** C6 at a video service that cannot be reached and at one that answers
    without an id. *)
Lemma generateVideo_at_two_services :
  fst (run (generateVideo "Ocean waves at sunset") unreachable initial_state)
  = Raised FetchError
  /\ fst (run (generateVideo "Ocean waves at sunset") empty_answers initial_state)
     = Returned (JObj []).
Proof.
  split.
  - apply (generateVideo_outcomes "Ocean waves at sunset" unreachable initial_state).
    reflexivity.
  - apply (generateVideo_outcomes "Ocean waves at sunset" empty_answers initial_state).
    reflexivity.
Defined.

(** C6 fails on the code: a response without an id is returned, not
    rejected. *)
Lemma generateVideo_accepts_missing_id : ~ generateVideo_rejects_missing_id.
Proof.
  intros H.
  destruct (H "Ocean waves at sunset" empty_answers initial_state (JObj []) eq_refl eq_refl)
    as [e He].
  discriminate He.
Qed.

(** C8 fails on the code: two refresh cycles and [initializeBackground]
    are in flight together, and the tick that found a task in flight was
    not dropped. *)
Lemma refresh_cycles_overlap :
  let srv := turns no_comparison 3 (boot no_comparison 3) slow_start in
  cycles_in_flight srv = 2%nat
  /\ initialize_in_flight srv = true
  /\ ~ one_task_at_a_time no_comparison 3
  /\ ~ busy_tick_is_dropped no_comparison 3.
Proof.
  cbv zeta. split; [ reflexivity | split; [ reflexivity | split ] ].
  - intros H. specialize (H slow_start). vm_compute in H. lia.
  - intros H.
    specialize (H (boot no_comparison 3) ltac:(discriminate)).
    apply (f_equal (fun srv => List.length (inflight srv))) in H.
    vm_compute in H. discriminate H.
Qed.

(** ** The further properties at concrete inputs *)

(** X3 at a completion with white space around its text. *)
Lemma generatePrompt_trims_the_completion :
  fst (run (generatePromptForLuma no_comparison "Ocean waves at sunset")
           (video_service_down "  Misty forest at dawn ") initial_state)
  = Returned "Misty forest at dawn".
Proof.
  rewrite (generatePrompt_returns_trimmed_text
             no_comparison "Ocean waves at sunset"
             (video_service_down "  Misty forest at dawn ") initial_state
             (completion "  Misty forest at dawn ")
             (JObj [("text", JStr "  Misty forest at dawn ")]) []
             "  Misty forest at dawn " eq_refl eq_refl eq_refl).
  reflexivity.
Defined.

(** X4 at a job that is processing once before the service is lost: two
    requests, one sleep, then the error of [fetch]. *)
Lemma pollGeneration_loses_the_service :
  exists s' events,
    run (pollGeneration 5 (Some (JStr "A")) default_interval) dropping_job initial_state
      = (Raised FetchError, s')
    /\ log s' = (log initial_state ++ events)%list
    /\ count_fetches events = 2%nat
    /\ sleeps events = [5000%Z].
Proof.
  destruct (pollGeneration_passes_errors_on
              1 5 (Some (JStr "A")) default_interval dropping_job initial_state
              (fun _ => job_record "A" "processing" "") FetchError eq_refl)
    as (s' & events & Hrun & Hlog & Hfetches & Hsleeps & _).
  - intros k Hk. destruct k as [ | k]; [ repeat split | lia ].
  - reflexivity.
  - lia.
  - exists s', events. auto.
Defined.

(** X5 at "processing", "processing", "completed". *)
Lemma pollGeneration_returns_the_third_answer :
  get_property (slow_job_reports 2) "status" = Some (JStr "completed")
  /\ exists events,
       log (snd (run (pollGeneration 3 (Some (JStr "A")) 10) slow_job initial_state))
       = (log initial_state ++ events
          ++ [Fetched (status_request (Some (JStr "A"))) (Body (slow_job_reports 2))])%list.
Proof.
  destruct (pollGeneration_returns_last_answer
              3 (Some (JStr "A")) 10 slow_job initial_state (slow_job_reports 2)
              (snd (run (pollGeneration 3 (Some (JStr "A")) 10) slow_job initial_state))
              eq_refl)
    as (Hstatus & Hlog & _).
  split; [ exact Hstatus | exact Hlog ].
Defined.

(** X7 at the start of the scenario. *)
Lemma scenario_start_commits_job_A :
  let s := snd (run (initializeBackground_try no_comparison 1) scenario_world initial_state) in
  exists genResponse generation,
    currentVideo s = {| id := get_property genResponse "id";
                        video_url := get_property generation "video_url" |}
    /\ get_property generation "status" = Some (JStr "completed")
    /\ currentVideo s = {| id := Some (JStr "A"); video_url := Some (JStr "http://x/a.mp4") |}.
Proof.
  cbv zeta.
  destruct (initialize_success_commits
              no_comparison 1 scenario_world initial_state
              (snd (run (initializeBackground_try no_comparison 1) scenario_world
                        initial_state))
              eq_refl)
    as (prompt & genResponse & generation & events & _ & _ & _ & _ & Hvideo & Hstatus & _).
  exists genResponse, generation.
  split; [ exact Hvideo | split; [ exact Hstatus | reflexivity ] ].
Defined.

(** X8 at the refresh cycle of the scenario. *)
Lemma scenario_cycle_commits_job_C :
  let s := snd (run (initializeBackground no_comparison 1) scenario_world initial_state) in
  let s' := snd (run (updateBackground_try no_comparison 1) scenario_world s) in
  exists interpResponse interpolated,
    currentVideo s' = {| id := get_property interpResponse "id";
                         video_url := get_property interpolated "video_url" |}
    /\ get_property interpolated "status" = Some (JStr "completed")
    /\ currentVideo s' = {| id := Some (JStr "C"); video_url := Some (JStr "http://x/c.mp4") |}.
Proof.
  cbv zeta.
  destruct (update_success_commits
              no_comparison 1 scenario_world
              (snd (run (initializeBackground no_comparison 1) scenario_world initial_state))
              (snd (run (updateBackground_try no_comparison 1) scenario_world
                        (snd (run (initializeBackground no_comparison 1) scenario_world
                                  initial_state))))
              eq_refl)
    as (newPrompt & newGenResponse & newGeneration & first & interpResponse & interpolated
        & events & events' & _ & _ & _ & _ & _ & _ & _ & Hvideo & Hstatus).
  exists interpResponse, interpolated.
  split; [ exact Hvideo | split; [ exact Hstatus | reflexivity ] ].
Defined.

(** X9 at the refresh cycle of the scenario, alone on the event loop after
    the start has committed "A": it comes to wait for the interpolation
    from "A" to the new generation "B". *)
Lemma scenario_lone_cycle_interpolates_from_A :
  let s := snd (run (initializeBackground no_comparison 1) scenario_world initial_state) in
  let newPrompt := (currentPrompt s ++ " with slight variation")%string in
  let s1 := snd (run (generatePromptForLuma no_comparison (currentPrompt s))
                     scenario_world s) in
  let s2 := snd (run (generateVideo newPrompt) scenario_world s1) in
  exists k,
    turns no_comparison 1 (idle s)
          (Tick :: solo_inputs (generatePromptForLuma no_comparison (currentPrompt s))
                               scenario_world s
                ++ solo_inputs (generateVideo newPrompt) scenario_world s1
                ++ solo_inputs (pollGeneration 1 (Some (JStr "B")) default_interval)
                               scenario_world s2)
    = {| video_now := {| id := Some (JStr "A"); video_url := Some (JStr "http://x/a.mp4") |};
         prompt_now := currentPrompt s;
         inflight :=
           [{| kind := RefreshCycle;
               rest := Fetch (interpolation_request (Some (JStr "A")) (Some (JStr "B"))
                                                    interpolation_prompt) k |}] |}.
Proof.
  cbv zeta.
  set (s := snd (run (initializeBackground no_comparison 1) scenario_world initial_state)).
  destruct (lone_cycle_interpolates_from_committed_video
              no_comparison 1 scenario_world s
              (currentPrompt s ++ " with slight variation")
              (snd (run (generatePromptForLuma no_comparison (currentPrompt s))
                        scenario_world s))
              (JObj [("id", JStr "B")])
              (snd (run (generateVideo (currentPrompt s ++ " with slight variation"))
                        scenario_world
                        (snd (run (generatePromptForLuma no_comparison (currentPrompt s))
                                  scenario_world s))))
              (job_record "B" "completed" "http://x/b.mp4")
              (snd (run (pollGeneration 1 (Some (JStr "B")) default_interval)
                        scenario_world
                        (snd (run (generateVideo (currentPrompt s ++ " with slight variation"))
                                  scenario_world
                                  (snd (run (generatePromptForLuma no_comparison
                                               (currentPrompt s))
                                            scenario_world s))))))
              eq_refl eq_refl ltac:(discriminate) eq_refl)
    as ((k & Hk) & _).
  exists k. exact Hk.
Defined.

(** X11 at a video service that answers with an empty object: the start
    asks for the status of the generation "undefined". *)
Lemma start_polls_undefined_generation :
  nth_error (log (snd (run (initializeBackground no_comparison 1) empty_answers
                           initial_state))) 2
  = Some (Fetched (GET_generation undefined) (Body (JObj []))).
Proof.
  destruct (initialize_polls_the_id_it_reads
              no_comparison 0 empty_answers initial_state
              initial_prompt
              (snd (run (generatePromptForLuma no_comparison initial_prompt)
                        empty_answers initial_state))
              (JObj [])
              (snd (run (generateVideo initial_prompt) empty_answers
                        (set_prompt initial_prompt
                           (snd (run (generatePromptForLuma no_comparison initial_prompt)
                                     empty_answers initial_state)))))
              eq_refl eq_refl)
    as (_ & _ & Hundefined).
  apply Hundefined; [ discriminate | reflexivity ].
Defined.
